(** * The live-update channel and the milestone board of the marketplace client

    A shallow embedding of
    - [useWebSocket] (the hook that owns the push connection, reconnects
      with exponential backoff and routes inbound messages to cache
      invalidations), and
    - the grouping and progress computation of [MilestoneBoard],
    together with the properties the specification states about them.

    The hook is event driven: the browser calls the handlers the hook has
    attached to a socket, fires the timers it has armed, and React runs the
    effect and its cleanup.  The embedding keeps the hook's cells (React
    state, refs), the sockets and timers it has created, and the calls it
    has made on the query client, and gives every callback as a function on
    that store. *)

From Stdlib Require Import ZArith PrimFloat Ascii String.
From stdpp Require Import base option list strings pretty.

Local Set Warnings "-register-all".
Local Open Scope string_scope.
Local Open Scope Z_scope.

(** ** JavaScript values *)

(** What [JSON.parse] can return, plus [undefined], which a property read
    produces.  Objects keep their own properties in insertion order.  The
    hook never computes with a number of a payload; numbers are integers
    here. *)
Inductive Value : Type :=
| JUndefined
| JNull
| JBool (b : bool)
| JNum (n : Z)
| JStr (s : string)
| JArr (items : list Value)
| JObj (fields : list (string * Value)).

Inductive Error : Type :=
| SyntaxError
| TypeError.

Inductive Result (A : Type) : Type :=
| Ok (a : A)
| Throw (e : Error).
Arguments Ok {A} a.
Arguments Throw {A} e.

Fixpoint own_property (k : string) (fields : list (string * Value)) : Value :=
  match fields with
  | [] => JUndefined
  | (k', v) :: rest => if String.eqb k k' then v else own_property k rest
  end.

(** [v.k] for the property names the hook reads ([type], [data],
    [projectId]): reading a property of [null] or [undefined] throws a
    TypeError, an object gives its own property or [undefined], and every
    other value gives [undefined]. *)
Definition get_property (v : Value) (k : string) : Result Value :=
  match v with
  | JUndefined | JNull => Throw TypeError
  | JObj fields => Ok (own_property k fields)
  | _ => Ok JUndefined
  end.

(** ** The platform the hook runs on *)

(** The built-ins the hook calls and the build-time environment.
    [JSON_parse] is [None] where [JSON.parse] throws a SyntaxError;
    [WebSocket_accepts url] says that [new WebSocket(url)] returns a socket
    rather than throwing; [VITE_WS_URL] is [import.meta.env.VITE_WS_URL]. *)
Class Platform : Type := {
  JSON_parse : string -> option Value;
  JSON_stringify : Value -> string;
  WebSocket_accepts : string -> bool;
  VITE_WS_URL : option string
}.

(** ** The store *)

Inductive ReadyState : Type := CONNECTING | OPEN | CLOSING | CLOSED.

Global Instance ReadyState_eq_dec : EqDecision ReadyState.
Proof. solve_decision. Defined.

(** A socket the hook has created.  Its four handlers are the closures of
    the [connect] call that created it, so they see that call's [userId];
    [ws_sent] are the frames handed to [send]. *)
Record Socket : Type := {
  ws_url : string;
  ws_readyState : ReadyState;
  ws_userId : string;
  ws_sent : list string
}.

(** A timer armed with [setTimeout]; its callback is the closure of the
    [onclose] handler that armed it. *)
Record Timer : Type := {
  t_delay : Z;
  t_userId : string;
  t_pending : bool
}.

Definition QueryKey : Type := list Value.

Inductive LogEntry : Type :=
| log_connected
| log_disconnected
| log_reconnecting (attempt maxAttempts : Z)
| error_parse (e : Error)
| error_socket
| error_connect.

(** The cells of one [useWebSocket] instance and what it has done to the
    outside.  Sockets and timers are named by their position in
    [sockets] and [timers]; both lists only grow. *)
Record Hook : Type := {
  isConnected : bool;
  lastMessage : Value;
  wsRef : option nat;
  reconnectTimeoutRef : option nat;
  reconnectAttempts : Z;
  sockets : list Socket;
  timers : list Timer;
  invalidated : list QueryKey;
  console : list LogEntry
}.

Definition maxReconnectAttempts : Z := 5.

(** The hook before its effect has run: [useState(false)],
    [useState(null)], [useRef(null)], [useRef()], [useRef(0)]. *)
Definition initial : Hook :=
  {| isConnected := false; lastMessage := JNull; wsRef := None;
     reconnectTimeoutRef := None; reconnectAttempts := 0;
     sockets := []; timers := []; invalidated := []; console := [] |}.

Definition setIsConnected (b : bool) (h : Hook) : Hook :=
  {| isConnected := b; lastMessage := lastMessage h; wsRef := wsRef h;
     reconnectTimeoutRef := reconnectTimeoutRef h;
     reconnectAttempts := reconnectAttempts h; sockets := sockets h;
     timers := timers h; invalidated := invalidated h; console := console h |}.

Definition setLastMessage (m : Value) (h : Hook) : Hook :=
  {| isConnected := isConnected h; lastMessage := m; wsRef := wsRef h;
     reconnectTimeoutRef := reconnectTimeoutRef h;
     reconnectAttempts := reconnectAttempts h; sockets := sockets h;
     timers := timers h; invalidated := invalidated h; console := console h |}.

Definition set_wsRef (r : option nat) (h : Hook) : Hook :=
  {| isConnected := isConnected h; lastMessage := lastMessage h; wsRef := r;
     reconnectTimeoutRef := reconnectTimeoutRef h;
     reconnectAttempts := reconnectAttempts h; sockets := sockets h;
     timers := timers h; invalidated := invalidated h; console := console h |}.

Definition set_reconnectTimeoutRef (r : option nat) (h : Hook) : Hook :=
  {| isConnected := isConnected h; lastMessage := lastMessage h;
     wsRef := wsRef h; reconnectTimeoutRef := r;
     reconnectAttempts := reconnectAttempts h; sockets := sockets h;
     timers := timers h; invalidated := invalidated h; console := console h |}.

Definition set_reconnectAttempts (n : Z) (h : Hook) : Hook :=
  {| isConnected := isConnected h; lastMessage := lastMessage h;
     wsRef := wsRef h; reconnectTimeoutRef := reconnectTimeoutRef h;
     reconnectAttempts := n; sockets := sockets h;
     timers := timers h; invalidated := invalidated h; console := console h |}.

Definition set_sockets (l : list Socket) (h : Hook) : Hook :=
  {| isConnected := isConnected h; lastMessage := lastMessage h;
     wsRef := wsRef h; reconnectTimeoutRef := reconnectTimeoutRef h;
     reconnectAttempts := reconnectAttempts h; sockets := l;
     timers := timers h; invalidated := invalidated h; console := console h |}.

Definition set_timers (l : list Timer) (h : Hook) : Hook :=
  {| isConnected := isConnected h; lastMessage := lastMessage h;
     wsRef := wsRef h; reconnectTimeoutRef := reconnectTimeoutRef h;
     reconnectAttempts := reconnectAttempts h; sockets := sockets h;
     timers := l; invalidated := invalidated h; console := console h |}.

Definition set_invalidated (l : list QueryKey) (h : Hook) : Hook :=
  {| isConnected := isConnected h; lastMessage := lastMessage h;
     wsRef := wsRef h; reconnectTimeoutRef := reconnectTimeoutRef h;
     reconnectAttempts := reconnectAttempts h; sockets := sockets h;
     timers := timers h; invalidated := l; console := console h |}.

Definition set_console (l : list LogEntry) (h : Hook) : Hook :=
  {| isConnected := isConnected h; lastMessage := lastMessage h;
     wsRef := wsRef h; reconnectTimeoutRef := reconnectTimeoutRef h;
     reconnectAttempts := reconnectAttempts h; sockets := sockets h;
     timers := timers h; invalidated := invalidated h; console := l |}.

Definition console_write (e : LogEntry) (h : Hook) : Hook :=
  set_console (console h ++ [e]) h.

(** ** Code that may throw *)

(** A computation on the store that returns or throws; what it did to the
    store before throwing stays done. *)
Definition M (A : Type) : Type := Hook -> Result A * Hook.

Global Instance M_ret : MRet M := fun A a h => (Ok a, h).

Global Instance M_bind : MBind M := fun A B f m h =>
  match m h with
  | (Ok a, h') => f a h'
  | (Throw e, h') => (Throw e, h')
  end.

Definition lift {A : Type} (r : Result A) : M A := fun h => (r, h).

Definition effect (f : Hook -> Hook) : M unit := fun h => (Ok tt, f h).

(** [try { body } catch (error) { handler(error) }] for a handler that does
    not throw. *)
Definition try_catch (body : M unit) (handler : Error -> Hook -> Hook)
  : Hook -> Hook := fun h =>
  match body h with
  | (Ok _, h') => h'
  | (Throw e, h') => handler e h'
  end.

(** ** The invalidation router *)

(** [queryClient.invalidateQueries({ queryKey })]: the hook's only use of
    the query client, recorded in call order. *)
Definition invalidateQueries (queryKey : QueryKey) : M unit :=
  effect (fun h => set_invalidated (invalidated h ++ [queryKey]) h).

(** [message.data.projectId] *)
Definition data_projectId (message : Value) : M Value :=
  data ← lift (get_property message "data");
  lift (get_property data "projectId").

(** [v === 'label'] for a string label: only the string itself is equal. *)
Definition strict_equal (v : Value) (label : string) : bool :=
  match v with
  | JStr s => String.eqb s label
  | _ => false
  end.

(** The [switch] compares [message.type] with the labels in order, and has
    no [default]. *)
Definition handleMessage (message : Value) : M unit :=
  type ← lift (get_property message "type");
  if strict_equal type "project_update" then
    invalidateQueries [JStr "projects"];;
    projectId ← data_projectId message;
    invalidateQueries [JStr "project"; projectId]
  else if strict_equal type "milestone_update" then
    projectId ← data_projectId message;
    invalidateQueries [JStr "milestones"; projectId]
  else if strict_equal type "proposal_update" then
    projectId ← data_projectId message;
    invalidateQueries [JStr "proposals"; projectId]
  else if strict_equal type "file_upload" then
    projectId ← data_projectId message;
    invalidateQueries [JStr "project-files"; projectId]
  else if strict_equal type "notification" then
    invalidateQueries [JStr "notifications"]
  else mret tt.

(** ** The hook *)

Definition default_ws_url : string := "wss://api.lancerscape.in".

Definition WebSocket_new (url userId : string) : Socket :=
  {| ws_url := url; ws_readyState := CONNECTING; ws_userId := userId;
     ws_sent := [] |}.

Definition set_readyState (r : ReadyState) (ws : Socket) : Socket :=
  {| ws_url := ws_url ws; ws_readyState := r; ws_userId := ws_userId ws;
     ws_sent := ws_sent ws |}.

(** [ws.close()]: starts the closing handshake unless the socket is already
    closing or closed.  The browser reports the end of the handshake later,
    by a close event on the socket. *)
Definition WebSocket_close (ws : Socket) : Socket :=
  match ws_readyState ws with
  | CLOSING | CLOSED => ws
  | CONNECTING | OPEN => set_readyState CLOSING ws
  end.

(** [ws.send(frame)] on an open socket. *)
Definition WebSocket_send (frame : string) (ws : Socket) : Socket :=
  {| ws_url := ws_url ws; ws_readyState := ws_readyState ws;
     ws_userId := ws_userId ws; ws_sent := ws_sent ws ++ [frame] |}.

(** [setTimeout(callback, delay)]: arms a timer and returns its id. *)
Definition setTimeout (userId : string) (delay : Z) (h : Hook) : nat * Hook :=
  (length (timers h),
   set_timers (timers h ++
     [{| t_delay := delay; t_userId := userId; t_pending := true |}]) h).

Definition disarm (t : Timer) : Timer :=
  {| t_delay := t_delay t; t_userId := t_userId t; t_pending := false |}.

(** [clearTimeout(id)]: nothing happens for a timer that has fired. *)
Definition clearTimeout (id : nat) (h : Hook) : Hook :=
  set_timers (alter disarm id (timers h)) h.

(** The [type] of an outbound message. *)
Inductive MessageType : Type :=
| project_update | milestone_update | proposal_update | file_upload
| notification.

Definition type_name (t : MessageType) : string :=
  match t with
  | project_update => "project_update"
  | milestone_update => "milestone_update"
  | proposal_update => "proposal_update"
  | file_upload => "file_upload"
  | notification => "notification"
  end.

(** [Omit<WebSocketMessage, 'timestamp'>] *)
Record OutMessage : Type := {
  m_type : MessageType;
  m_data : Value
}.

Section UseWebSocket.
Context {platform : Platform}.

(** [import.meta.env.VITE_WS_URL || 'wss://api.lancerscape.in']: the
    default stands in for a variable that is unset or empty. *)
Definition ws_base : string :=
  match VITE_WS_URL with
  | Some base => if String.eqb base EmptyString then default_ws_url else base
  | None => default_ws_url
  end.

Definition wsUrl (userId : string) : string :=
  ws_base +:+ "/ws?userId=" +:+ userId.

(** The [try] block assigns the new socket to [wsRef.current] and its
    handlers to the socket; only the constructor can throw. *)
Definition connect (userId : string) (h : Hook) : Hook :=
  if WebSocket_accepts (wsUrl userId) then
    set_wsRef (Some (length (sockets h)))
      (set_sockets (sockets h ++ [WebSocket_new (wsUrl userId) userId]) h)
  else console_write error_connect h.

Definition onopen (h : Hook) : Hook :=
  set_reconnectAttempts 0 (setIsConnected true (console_write log_connected h)).

Definition parse (data : string) : Result Value :=
  match JSON_parse data with
  | Some v => Ok v
  | None => Throw SyntaxError
  end.

Definition onmessage (data : string) : Hook -> Hook :=
  try_catch
    (message ← lift (parse data);
     effect (setLastMessage message);;
     handleMessage message)
    (fun error => console_write (error_parse error)).

(** The timer's callback. *)
Definition reconnect (userId : string) (h : Hook) : Hook :=
  connect userId
    (console_write
       (log_reconnecting (reconnectAttempts h) maxReconnectAttempts) h).

Definition onclose (userId : string) (h : Hook) : Hook :=
  let h := setIsConnected false (console_write log_disconnected h) in
  if reconnectAttempts h <? maxReconnectAttempts then
    let h := set_reconnectAttempts (reconnectAttempts h + 1) h in
    let delay := Z.min (1000 * 2 ^ reconnectAttempts h) 30000 in
    let (id, h) := setTimeout userId delay h in
    set_reconnectTimeoutRef (Some id) h
  else h.

Definition onerror (h : Hook) : Hook := console_write error_socket h.

(** [now] is [new Date().toISOString()] at the time of the call. *)
Definition sendMessage (message : OutMessage) (now : string) (h : Hook)
  : Hook :=
  match wsRef h with
  | Some i =>
      match sockets h !! i with
      | Some ws =>
          if decide (ws_readyState ws = OPEN) then
            let frame :=
              JSON_stringify
                (JObj [("type", JStr (type_name (m_type message)));
                       ("data", m_data message);
                       ("timestamp", JStr now)]) in
            set_sockets (<[i := WebSocket_send frame ws]> (sockets h)) h
          else h
      | None => h
      end
  | None => h
  end.

(** The body of the effect: an empty [userId] is falsy. *)
Definition effect_run (userId : string) (h : Hook) : Hook :=
  if String.eqb userId EmptyString then h else connect userId h.

(** The cleanup the effect returns. *)
Definition effect_cleanup (h : Hook) : Hook :=
  let h :=
    match reconnectTimeoutRef h with
    | Some id => clearTimeout id h
    | None => h
    end in
  match wsRef h with
  | Some i => set_sockets (alter WebSocket_close i (sockets h)) h
  | None => h
  end.

(** *** What can happen to the hook *)

(** React runs the effect (on mount and after a change of [userId]) and
    its cleanup (before the next run and on unmount); the browser
    delivers socket events and fires timers; the application calls
    [sendMessage]. *)
Inductive Event : Type :=
| EffectRun (userId : string)
| EffectCleanup
| SocketOpen (i : nat)
| SocketMessage (i : nat) (data : string)
| SocketError (i : nat)
| SocketClose (i : nat)
| TimerFired (t : nat)
| Send (message : OutMessage) (now : string).

Definition update_socket (i : nat) (ws : Socket) (h : Hook) : Hook :=
  set_sockets (<[i := ws]> (sockets h)) h.

(** One event.  The browser opens only a connecting socket, delivers
    messages only on an open one, closes a socket once, and fires only a
    timer that is still armed; an event that cannot happen leaves the
    store as it is. *)
Definition step (h : Hook) (e : Event) : Hook :=
  match e with
  | EffectRun userId => effect_run userId h
  | EffectCleanup => effect_cleanup h
  | SocketOpen i =>
      match sockets h !! i with
      | Some ws =>
          if decide (ws_readyState ws = CONNECTING)
          then onopen (update_socket i (set_readyState OPEN ws) h)
          else h
      | None => h
      end
  | SocketMessage i data =>
      match sockets h !! i with
      | Some ws =>
          if decide (ws_readyState ws = OPEN) then onmessage data h else h
      | None => h
      end
  | SocketError i =>
      match sockets h !! i with
      | Some ws =>
          if decide (ws_readyState ws = CLOSED) then h else onerror h
      | None => h
      end
  | SocketClose i =>
      match sockets h !! i with
      | Some ws =>
          if decide (ws_readyState ws = CLOSED) then h
          else onclose (ws_userId ws)
                 (update_socket i (set_readyState CLOSED ws) h)
      | None => h
      end
  | TimerFired t =>
      match timers h !! t with
      | Some tm =>
          if t_pending tm
          then reconnect (t_userId tm)
                 (set_timers (<[t := disarm tm]> (timers h)) h)
          else h
      | None => h
      end
  | Send message now => sendMessage message now h
  end.

Definition run (h : Hook) (trace : list Event) : Hook :=
  fold_left step trace h.

End UseWebSocket.

(** ** A platform to run the hook on *)

(** An executable instance of [Platform], for running the hook on concrete
    inputs.  Its encoder and decoder cover the fragment of JSON whose
    numbers are integers and whose strings need no escape; the decoder
    rejects every other text. *)
Module Browser.

Definition dquote : ascii := "034"%char.
Definition backslash : ascii := "092"%char.

Definition quoted (s : string) : string :=
  String dquote s +:+ String dquote EmptyString.

(** Properties whose value is [undefined] are left out of an object, and
    [undefined] in an array is written [null]. *)
Fixpoint stringify (v : Value) : string :=
  match v with
  | JUndefined | JNull => "null"
  | JBool true => "true"
  | JBool false => "false"
  | JNum n => pretty n
  | JStr s => quoted s
  | JArr items => "[" +:+ String.concat "," (map stringify items) +:+ "]"
  | JObj fields =>
      "{" +:+
      String.concat ","
        (omap (fun kv : string * Value =>
                 match kv with
                 | (_, JUndefined) => None
                 | (k, v) => Some (quoted k +:+ ":" +:+ stringify v)
                 end) fields)
      +:+ "}"
  end.

Definition is_space (c : ascii) : bool :=
  (Ascii.eqb c " " || Ascii.eqb c "009" || Ascii.eqb c "010"
   || Ascii.eqb c "013")%char.

Fixpoint skip_spaces (s : string) : string :=
  match s with
  | String c rest => if is_space c then skip_spaces rest else s
  | EmptyString => s
  end.

Fixpoint strip_prefix (p s : string) : option string :=
  match p, s with
  | EmptyString, _ => Some s
  | String a p', String b s' =>
      if Ascii.eqb a b then strip_prefix p' s' else None
  | String _ _, EmptyString => None
  end.

(** The characters up to the closing quote, and what follows it. *)
Fixpoint read_string (s : string) : option (string * string) :=
  match s with
  | EmptyString => None
  | String c rest =>
      if Ascii.eqb c dquote then Some (EmptyString, rest)
      else if Ascii.eqb c backslash then None
      else if (nat_of_ascii c <? 32)%nat then None
      else '(str, rest') ← read_string rest; Some (String c str, rest')
  end.

Definition digit (c : ascii) : option Z :=
  let n := nat_of_ascii c in
  if ((48 <=? n) && (n <=? 57))%nat then Some (Z.of_nat n - 48) else None.

Fixpoint read_digits (acc : Z) (s : string) : Z * string :=
  match s with
  | String c rest =>
      match digit c with
      | Some d => read_digits (10 * acc + d) rest
      | None => (acc, s)
      end
  | EmptyString => (acc, s)
  end.

Definition read_natural (s : string) : option (Z * string) :=
  match s with
  | String c _ => if digit c is Some _ then Some (read_digits 0 s) else None
  | EmptyString => None
  end.

(** Assignment to a property: a repeated name keeps its place and takes
    the later value. *)
Fixpoint set_own_property (k : string) (v : Value)
    (fields : list (string * Value)) : list (string * Value) :=
  match fields with
  | [] => [(k, v)]
  | (k', v') :: rest =>
      if String.eqb k k' then (k, v) :: rest
      else (k', v') :: set_own_property k v rest
  end.

Fixpoint parse_value (fuel : nat) (s : string) : option (Value * string) :=
  match fuel with
  | O => None
  | S fuel =>
      match skip_spaces s with
      | String "{" rest =>
          match skip_spaces rest with
          | String "}" rest' => Some (JObj [], rest')
          | _ => parse_members fuel [] rest
          end
      | String "[" rest =>
          match skip_spaces rest with
          | String "]" rest' => Some (JArr [], rest')
          | _ => parse_items fuel [] rest
          end
      | String "-" rest =>
          '(n, rest') ← read_natural rest; Some (JNum (- n), rest')
      | String c rest as s' =>
          if Ascii.eqb c dquote then
            '(str, rest') ← read_string rest; Some (JStr str, rest')
          else if digit c is Some _ then
            '(n, rest') ← read_natural s'; Some (JNum n, rest')
          else
            match strip_prefix "null" s', strip_prefix "true" s',
                  strip_prefix "false" s' with
            | Some rest', _, _ => Some (JNull, rest')
            | _, Some rest', _ => Some (JBool true, rest')
            | _, _, Some rest' => Some (JBool false, rest')
            | _, _, _ => None
            end
      | EmptyString => None
      end
  end

with parse_items (fuel : nat) (acc : list Value) (s : string)
    : option (Value * string) :=
  match fuel with
  | O => None
  | S fuel =>
      '(v, rest) ← parse_value fuel s;
      match skip_spaces rest with
      | String "," rest' => parse_items fuel (acc ++ [v]) rest'
      | String "]" rest' => Some (JArr (acc ++ [v]), rest')
      | _ => None
      end
  end

with parse_members (fuel : nat) (acc : list (string * Value)) (s : string)
    : option (Value * string) :=
  match fuel with
  | O => None
  | S fuel =>
      match skip_spaces s with
      | String c rest =>
          if Ascii.eqb c dquote then
            '(k, rest) ← read_string rest;
            match skip_spaces rest with
            | String ":" rest =>
                '(v, rest) ← parse_value fuel rest;
                match skip_spaces rest with
                | String "," rest' =>
                    parse_members fuel (set_own_property k v acc) rest'
                | String "}" rest' =>
                    Some (JObj (set_own_property k v acc), rest')
                | _ => None
                end
            | _ => None
            end
          else None
      | EmptyString => None
      end
  end.

Definition parse_text (s : string) : option Value :=
  '(v, rest) ← parse_value (2 * String.length s + 2) s;
  match skip_spaces rest with
  | EmptyString => Some v
  | String _ _ => None
  end.

Fixpoint has_fragment (s : string) : bool :=
  match s with
  | String c rest => Ascii.eqb c "#" || has_fragment rest
  | EmptyString => false
  end.

(** The constructor takes a [ws:] or [wss:] URL without a fragment. *)
Definition accepts (url : string) : bool :=
  match strip_prefix "ws://" url, strip_prefix "wss://" url with
  | None, None => false
  | _, _ => negb (has_fragment url)
  end.

Definition platform (env_VITE_WS_URL : option string) : Platform :=
  {| JSON_parse := parse_text; JSON_stringify := stringify;
     WebSocket_accepts := accepts; VITE_WS_URL := env_VITE_WS_URL |}.

End Browser.

(** ** The milestone board *)

Module MilestoneBoard.

(** [Milestone['status']]: ['pending' | 'in_progress' | 'completed'] *)
Inductive Status : Type := Pending | InProgress | Completed.

Global Instance Status_eq_dec : EqDecision Status.
Proof. solve_decision. Defined.

(** [amount] is a JavaScript number: an IEEE 754 double, which is what a
    primitive float is. *)
Record Milestone : Type := {
  id : string;
  title : string;
  description : string;
  amount : float;
  deadline : string;
  status : Status;
  deliverables : list string
}.

Record Columns : Type := {
  pending : list Milestone;
  in_progress : list Milestone;
  completed : list Milestone
}.

Definition groupedMilestones (milestones : list Milestone) : Columns :=
  {| pending := filter (fun m => status m = Pending) milestones;
     in_progress := filter (fun m => status m = InProgress) milestones;
     completed := filter (fun m => status m = Completed) milestones |}.

(** [l.reduce((sum, m) => sum + m.amount, 0)]: the amounts are added from
    left to right in double arithmetic. *)
Definition reduce_amount (l : list Milestone) : float :=
  fold_left (fun sum m => (sum + amount m)%float) l 0%float.

Definition totalAmount (milestones : list Milestone) : float :=
  reduce_amount milestones.

Definition completedAmount (milestones : list Milestone) : float :=
  reduce_amount (completed (groupedMilestones milestones)).

(** [totalAmount > 0 ? (completedAmount / totalAmount) * 100 : 0]: the
    comparison is false for a total that is zero, negative or NaN. *)
Definition progressPercentage (milestones : list Milestone) : float :=
  if (0 <? totalAmount milestones)%float
  then (completedAmount milestones / totalAmount milestones * 100)%float
  else 0%float.

(** The column of the board for a status. *)
Definition column (s : Status) (columns : Columns) : list Milestone :=
  match s with
  | Pending => pending columns
  | InProgress => in_progress columns
  | Completed => completed columns
  end.

(** The progress as the formula [100 * completed / total] gives it in
    double arithmetic. *)
Definition progress_multiplied_first (milestones : list Milestone) : float :=
  (100 * completedAmount milestones / totalAmount milestones)%float.

End MilestoneBoard.

(** ** Vocabulary of the specification *)

(** The table of section 4.3: the query keys a message of each kind makes
    stale, given the resource identifier of its payload. *)
Definition affected_keys (kind : MessageType) (projectId : Value)
  : list QueryKey :=
  match kind with
  | project_update => [[JStr "projects"]; [JStr "project"; projectId]]
  | milestone_update => [[JStr "milestones"; projectId]]
  | proposal_update => [[JStr "proposals"; projectId]]
  | file_upload => [[JStr "project-files"; projectId]]
  | notification => [[JStr "notifications"]]
  end.

(** The socket [wsRef.current] names, if any. *)
Definition current_socket (h : Hook) : option Socket :=
  i ← wsRef h; sockets h !! i.

(** The object [sendMessage] serializes: the message with the timestamp
    added. *)
Definition stamped (message : OutMessage) (now : string) : Value :=
  JObj [("type", JStr (type_name (m_type message)));
        ("data", m_data message);
        ("timestamp", JStr now)].

(** The backoff formula of section 4.2 for the retry counter after its
    increment. *)
Definition backoff_delay (attempt : Z) : Z := Z.min (1000 * 2 ^ attempt) 30000.

Definition backoff_schedule : list Z := [2000; 4000; 8000; 16000; 30000].

(** The delays of all timers armed so far, in the order they were armed. *)
Definition delays (h : Hook) : list Z := t_delay <$> timers h.

Definition is_open_event (e : Event) : bool :=
  match e with
  | SocketOpen _ => true
  | _ => false
  end.

(** The event is a close the browser delivers: the close event of a socket
    that has not been closed yet. *)
Definition delivers_close (h : Hook) (e : Event) : bool :=
  match e with
  | SocketClose i =>
      match sockets h !! i with
      | Some ws => bool_decide (ws_readyState ws <> CLOSED)
      | None => false
      end
  | _ => false
  end.

Fixpoint closes_delivered `{Platform} (h : Hook) (trace : list Event) : nat :=
  match trace with
  | [] => 0
  | e :: trace =>
      ((if delivers_close h e then 1 else 0)
       + closes_delivered (step h e) trace)%nat
  end.

(** The store holds no live socket and no armed timer. *)
Definition quiescent (h : Hook) : Prop :=
  Forall (fun ws => ws_readyState ws = CLOSED) (sockets h) /\
  Forall (fun t => t_pending t = false) (timers h).

(** What the browser does on its own: socket events and timers. *)
Definition is_browser_event (e : Event) : bool :=
  match e with
  | SocketOpen _ | SocketMessage _ _ | SocketError _ | SocketClose _
  | TimerFired _ => true
  | EffectRun _ | EffectCleanup | Send _ _ => false
  end.

Definition no_open (trace : list Event) : Prop :=
  Forall (fun e => is_open_event e = false) trace.

(** The executable platform with no [VITE_WS_URL] in the environment. *)
Definition unconfigured : Platform := Browser.platform None.

(** Five failed connections in a row, each retried when its timer fires,
    and the failure of the last retry. *)
Definition five_failures : list Event :=
  [EffectRun "u1"; SocketClose 0; TimerFired 0; SocketClose 1; TimerFired 1;
   SocketClose 2; TimerFired 2; SocketClose 3; TimerFired 3; SocketClose 4;
   TimerFired 4; SocketClose 5].

(** The failing run for an identity: the effect connects, the socket
    closes, and each of the five retries, made when its timer fires,
    closes as well. *)
Definition failing_run (userId : string) : list Event :=
  [EffectRun userId; SocketClose 0; TimerFired 0; SocketClose 1; TimerFired 1;
   SocketClose 2; TimerFired 2; SocketClose 3; TimerFired 3; SocketClose 4;
   TimerFired 4; SocketClose 5].

(** The failing run up to the fifth close. *)
Definition five_closes (userId : string) : list Event :=
  [EffectRun userId; SocketClose 0; TimerFired 0; SocketClose 1; TimerFired 1;
   SocketClose 2; TimerFired 2; SocketClose 3; TimerFired 3; SocketClose 4].

(** What the reconnection policy sees of a store: the retry counter, the
    sockets and the timers. *)
Definition policy_view (h : Hook) (c : Z) (ss : list Socket) (ts : list Timer)
  : Prop :=
  reconnectAttempts h = c /\ sockets h = ss /\ timers h = ts.

(** The store is terminal for the browser: whatever socket and timer
    events follow, no timer is armed and no socket is created. *)
Definition terminal `{Platform} (h : Hook) : Prop :=
  forall trace : list Event,
    Forall (fun e => is_browser_event e = true) trace ->
    length (timers (run h trace)) = length (timers h) /\
    length (sockets (run h trace)) = length (sockets h).

(** The frame of the specification's scenario. *)
Definition milestone_frame : string :=
  Browser.stringify
    (JObj [("type", JStr "milestone_update");
           ("data", JObj [("projectId", JStr "p1")]);
           ("timestamp", JStr "2024-01-01T00:00:00.000Z")]).

(** The hook connects and is torn down while connected. *)
Definition until_teardown : list Event :=
  [EffectRun "u1"; SocketOpen 0; EffectCleanup].

(** What the browser does next: it reports the end of the closing handshake
    of socket 0, fires the timer armed then, opens the socket that timer
    created and delivers a message on it. *)
Definition after_teardown : list Event :=
  [SocketClose 0; TimerFired 0; SocketOpen 1; SocketMessage 1 milestone_frame].

(** The identity changes from [u1] to [u2] while connected: cleanup, the
    effect for [u2], whose socket opens; then the close event of the old
    socket arrives and its timer fires. *)
Definition identity_change : list Event :=
  [EffectRun "u1"; SocketOpen 0; EffectCleanup; EffectRun "u2"; SocketOpen 1;
   SocketClose 0; TimerFired 0].

(** The claim of C9 read on the code: with no push URL configured,
    running the effect creates no socket. *)
Definition absent_url_disables `{Platform} (userId : string) (h : Hook) : Prop :=
  VITE_WS_URL = None -> sockets (step h (EffectRun userId)) = sockets h.

(** ** The rest of the client around the hook and the board *)

(** *** The life of a socket *)

(** The order in which a socket passes through its states. *)
Definition readyState_rank (r : ReadyState) : nat :=
  match r with
  | CONNECTING => 0
  | OPEN => 1
  | CLOSING => 2
  | CLOSED => 3
  end.

(** A later state of the same socket: same URL and identity, a state that
    is not earlier, and the frames sent so far extended. *)
Definition evolves (ws ws' : Socket) : Prop :=
  ws_url ws' = ws_url ws /\ ws_userId ws' = ws_userId ws /\
  (readyState_rank (ws_readyState ws) <= readyState_rank (ws_readyState ws'))%nat /\
  ws_sent ws `prefix_of` ws_sent ws'.

(** The refs of the hook name a socket and a timer that exist. *)
Definition refs_valid (h : Hook) : Prop :=
  from_option (fun i => i < length (sockets h))%nat True (wsRef h) /\
  from_option (fun t => t < length (timers h))%nat True (reconnectTimeoutRef h).

(** The identities the effect has been run with in a trace. *)
Definition effect_userIds (trace : list Event) : list string :=
  omap (fun e => match e with EffectRun userId => Some userId | _ => None end)
    trace.

Definition is_message_event (e : Event) : bool :=
  match e with
  | SocketMessage _ _ => true
  | _ => false
  end.

(** *** The upload mutation of useFiles *)

Module UseFiles.

(** The [variables] of the mutation that [onSuccess] reads. *)
Record Variables : Type := {
  projectId : string;
  category : string
}.

(** The payload of the notification: [{ projectId, files, category }]. *)
Definition notification_data (files : Value) (variables : Variables) : Value :=
  JObj [("projectId", JStr (projectId variables));
        ("files", files);
        ("category", JStr (category variables))].

(** [onSuccess(data, variables)] of [useFileUpload]: the query client is
    the one the hook invalidates on, and [sendMessage] is that of the
    hook instance the mutation owns. *)
Definition onSuccess `{Platform} (data : Value) (variables : Variables)
    (now : string) : M unit :=
  invalidateQueries [JStr "project-files"; JStr (projectId variables)];;
  files ← lift (get_property data "files");
  effect (sendMessage
            {| m_type := file_upload;
               m_data := notification_data files variables |} now).

End UseFiles.

(** *** The milestone card *)

Module MilestoneCard.
Import MilestoneBoard.

(** [milestone.deliverables.slice(0, 2)]: the deliverables the card lists. *)
Definition shown_deliverables (milestone : Milestone) : list string :=
  take 2 (deliverables milestone).

(** The count behind [+N more], shown when there are more than two. *)
Definition more_deliverables (milestone : Milestone) : option nat :=
  if (2 <? length (deliverables milestone))%nat
  then Some (length (deliverables milestone) - 2)%nat
  else None.

End MilestoneCard.

(** *** Strings *)

(** [s.includes(needle)] *)
Fixpoint includes (s needle : string) : bool :=
  if String.prefix needle s then true
  else match s with
       | EmptyString => false
       | String _ rest => includes rest needle
       end.

(** [s.split('.').pop()]: what follows the last dot, the whole string when
    it has none. *)
Fixpoint last_segment_from (segment s : string) : string :=
  match s with
  | EmptyString => segment
  | String c rest =>
      if Ascii.eqb c "."
      then last_segment_from EmptyString rest
      else last_segment_from (segment +:+ String c EmptyString) rest
  end.

Definition last_segment (s : string) : string :=
  last_segment_from EmptyString s.

(** [s.replace('*', '')]: the first star is removed. *)
Fixpoint remove_first_star (s : string) : string :=
  match s with
  | EmptyString => EmptyString
  | String c rest =>
      if Ascii.eqb c "*" then rest else String c (remove_first_star rest)
  end.

(** Lower case for the letters A to Z, to run the components on. *)
Definition ascii_lower (c : ascii) : ascii :=
  let n := nat_of_ascii c in
  if ((65 <=? n) && (n <=? 90))%nat then ascii_of_nat (n + 32) else c.

Fixpoint ascii_toLowerCase (s : string) : string :=
  match s with
  | EmptyString => EmptyString
  | String c rest => String (ascii_lower c) (ascii_toLowerCase rest)
  end.

(** *** The file manager *)

Module FileManager.

Inductive Category : Type := requirement | deliverable | reference | other.

Global Instance Category_eq_dec : EqDecision Category.
Proof. solve_decision. Defined.

Definition category_key (c : Category) : string :=
  match c with
  | requirement => "requirement"
  | deliverable => "deliverable"
  | reference => "reference"
  | other => "other"
  end.

Inductive Role : Type := client | freelancer.

Inductive Kind : Type := file | folder.

Record Uploader : Type := {
  uploader_id : string;
  uploader_name : string;
  role : Role
}.

Record FileItem : Type := {
  id : string;
  name : string;
  type : Kind;
  mimeType : option string;
  size : Z;
  url : option string;
  uploadedAt : string;
  uploadedBy : Uploader;
  category : Category;
  milestoneId : option string
}.

Section Filter.
(** [String.prototype.toLowerCase] *)
Variable toLowerCase : string -> string.

(** [selectedCategory] is ['all'] or the key of a category. *)
Definition matchesCategory (selectedCategory : string) (f : FileItem) : bool :=
  String.eqb selectedCategory "all"
  || String.eqb (category_key (category f)) selectedCategory.

Definition matchesSearch (searchQuery : string) (f : FileItem) : bool :=
  includes (toLowerCase (name f)) (toLowerCase searchQuery).

Definition filteredFiles (files : list FileItem)
    (selectedCategory searchQuery : string) : list FileItem :=
  filter (fun f => matchesCategory selectedCategory f
                   && matchesSearch searchQuery f = true) files.

End Filter.

(** The number on a category button:
    [files.filter(f => f.category === category.key).length]. *)
Definition category_count (files : list FileItem) (key : string) : nat :=
  length (filter (fun f => category_key (category f) = key) files).

Definition toggleFileSelection (fileId : string) (prev : list string)
  : list string :=
  if bool_decide (fileId ∈ prev)
  then filter (fun id => id <> fileId) prev
  else prev ++ [fileId].

(** The selection after a series of clicks on file cards, starting from
    the empty selection. *)
Definition selection_after (clicks : list string) : list string :=
  fold_left (fun selected fileId => toggleFileSelection fileId selected)
    clicks [].

End FileManager.

(** *** The upload zone *)

Module FileUploadZone.

(** What the zone reads of a browser [File]; [size] is in bytes. *)
Record File : Type := {
  name : string;
  type : string;
  size : Z
}.

(** The two messages [validateFile] returns:
    [File size exceeds ${maxFileSize}MB limit] and
    [File type not allowed. Allowed types: ${allowedTypes.join(', ')}]. *)
Inductive ValidationError : Type :=
| size_exceeds (maxFileSize : Z)
| type_not_allowed (allowedTypes : list string).

Inductive UploadStatus : Type := uploading | completed | error.

Record UploadingFile : Type := {
  file : File;
  progress : float;
  status : UploadStatus;
  error_text : option string
}.

Section Zone.
Variable toLowerCase : string -> string.
(** The props [maxFileSize], in whole megabytes as at its call sites, and
    [allowedTypes]. *)
Variable maxFileSize : Z.
Variable allowedTypes : list string.

Definition fileExtension (f : File) : string :=
  toLowerCase (last_segment (name f)).

Definition isAllowed (f : File) : bool :=
  existsb (fun t => String.eqb t (fileExtension f)
                    || includes (type f) (remove_first_star t)) allowedTypes.

Definition validateFile (f : File) : option ValidationError :=
  if maxFileSize * 1024 * 1024 <? size f then Some (size_exceeds maxFileSize)
  else if (0 <? length allowedTypes)%nat
          && negb (bool_decide ("*" ∈ allowedTypes))
  then if isAllowed f then None else Some (type_not_allowed allowedTypes)
  else None.

(** The [forEach] of [handleFiles]: every file is pushed on one of the two
    arrays. *)
Definition validate_each (files : list File)
  : list File * list (File * ValidationError) :=
  fold_left
    (fun (arrays : list File * list (File * ValidationError)) f =>
       match validateFile f with
       | Some e => (arrays.1, (arrays.2 ++ [(f, e)])%list)
       | None => ((arrays.1 ++ [f])%list, arrays.2)
       end) files ([], []).

Definition start_upload (f : File) : UploadingFile :=
  {| file := f; progress := 0; status := uploading; error_text := None |}.

(** [handleFiles] up to its first [await]: the errors written to the
    console, each with the name of its file, and the list handed to
    [setUploadingFiles], if the function gets that far. *)
Definition handleFiles_begin (files : list File)
  : list (string * ValidationError) * option (list UploadingFile) :=
  let arrays := validate_each files in
  ((fun fe : File * ValidationError => (name fe.1, fe.2)) <$> arrays.2,
   if (length arrays.1 =? 0)%nat then None
   else Some (start_upload <$> arrays.1)).

End Zone.

(** [prev.filter((_, i) => keep(i))] *)
Fixpoint filter_index {A : Type} (keep : nat -> bool) (i : nat) (l : list A)
  : list A :=
  match l with
  | [] => []
  | x :: rest =>
      if keep i then x :: filter_index keep (S i) rest
      else filter_index keep (S i) rest
  end.

Definition removeUploadingFile {A : Type} (index : nat) (prev : list A)
  : list A :=
  filter_index (fun i => negb (i =? index)%nat) 0 prev.

End FileUploadZone.

(** * Properties *)

(** ** The invalidation router *)

Lemma set_invalidated_twice (l1 l2 : list QueryKey) (h : Hook) :
  set_invalidated l2 (set_invalidated l1 h) = set_invalidated l2 h.
Proof. reflexivity. Qed.

Lemma strict_equal_recognized (v : Value) (kind : MessageType) :
  strict_equal v (type_name kind) = true -> v = JStr (type_name kind).
Proof.
  destruct v; simpl; try discriminate.
  intros E. apply String.eqb_eq in E. by subst.
Qed.

(** C1: for a message whose [type] is one of the five recognized kinds and
    whose payload carries the resource identifier ([message.data.projectId]
    can be read; a notification needs no payload), [handleMessage] returns
    normally and invalidates exactly the keys of the section 4.3 table for
    that kind and identifier, in the table's order, and changes nothing
    else. *)
Theorem handleMessage_routes_recognized
    (kind : MessageType) (message payload projectId : Value) (h : Hook) :
  get_property message "type" = Ok (JStr (type_name kind)) ->
  get_property message "data" = Ok payload ->
  (kind <> notification -> get_property payload "projectId" = Ok projectId) ->
  handleMessage message h =
    (Ok tt,
     set_invalidated (invalidated h ++ affected_keys kind projectId) h).
Proof.
  intros Htype Hdata Hid.
  unfold handleMessage, data_projectId, invalidateQueries, effect, lift,
    mbind, M_bind.
  rewrite Htype.
  destruct kind; simpl; rewrite ?Hdata; try (rewrite Hid by discriminate);
    simpl; rewrite ?set_invalidated_twice, <- ?app_assoc; reflexivity.
Qed.

(** The scenario of the specification: the server sends a milestone update
    for project [p1], the router marks the milestones of [p1] stale. *)
Lemma handleMessage_routes_recognized_witness :
  handleMessage
    (JObj [("type", JStr "milestone_update");
           ("data", JObj [("projectId", JStr "p1")]);
           ("timestamp", JStr "2024-01-01T00:00:00.000Z")]) initial
  = (Ok tt, set_invalidated [[JStr "milestones"; JStr "p1"]] initial).
Proof.
  apply (handleMessage_routes_recognized milestone_update _
           (JObj [("projectId", JStr "p1")]) (JStr "p1") initial).
  - reflexivity.
  - reflexivity.
  - intros _. reflexivity.
Defined.

(** A recognized message whose payload is [null] (or missing) is outside
    the table: reading [projectId] throws, after the project list has
    already been invalidated for a project update. *)
Lemma handleMessage_null_payload (h : Hook) :
  handleMessage (JObj [("type", JStr "project_update"); ("data", JNull)]) h
  = (Throw TypeError, set_invalidated (invalidated h ++ [[JStr "projects"]]) h).
Proof. reflexivity. Qed.

(** C5: for a message whose [type] is not one of the five recognized kinds
    (any string but the five labels, or a value that is no string),
    [handleMessage] returns normally, invalidates nothing and leaves the
    whole store, connection included, as it was. *)
Theorem handleMessage_ignores_unrecognized
    (message type : Value) (h : Hook) :
  get_property message "type" = Ok type ->
  (forall kind : MessageType, type <> JStr (type_name kind)) ->
  handleMessage message h = (Ok tt, h).
Proof.
  intros Htype Hnot.
  assert (Hfalse : forall kind, strict_equal type (type_name kind) = false).
  { intros kind. destruct (strict_equal type (type_name kind)) eqn:E; [|done].
    apply strict_equal_recognized in E. by destruct (Hnot kind). }
  pose proof (Hfalse project_update) as H1.
  pose proof (Hfalse milestone_update) as H2.
  pose proof (Hfalse proposal_update) as H3.
  pose proof (Hfalse file_upload) as H4.
  pose proof (Hfalse notification) as H5.
  cbn [type_name] in H1, H2, H3, H4, H5.
  unfold handleMessage, lift, mbind, M_bind. rewrite Htype.
  by rewrite H1, H2, H3, H4, H5.
Qed.

Lemma handleMessage_ignores_unrecognized_witness :
  handleMessage
    (JObj [("type", JStr "payment_received"); ("data", JObj [])]) initial
  = (Ok tt, initial).
Proof.
  apply (handleMessage_ignores_unrecognized _ (JStr "payment_received")).
  - reflexivity.
  - intros kind; destruct kind; discriminate.
Defined.

(** ** The transport *)

Section Transport.
Context {platform : Platform}.

(** C6: the open callback sets the retry counter to 0 and the connection
    state to connected, whatever the store was before; so does the open
    event the browser delivers on a connecting socket, which becomes
    open. *)
Theorem open_resets_retry_counter (h : Hook) :
  (reconnectAttempts (onopen h) = 0 /\ isConnected (onopen h) = true) /\
  (forall (i : nat) (ws : Socket),
      sockets h !! i = Some ws ->
      ws_readyState ws = CONNECTING ->
      let h' := step h (SocketOpen i) in
      reconnectAttempts h' = 0 /\ isConnected h' = true /\
      ws_readyState <$> sockets h' !! i = Some OPEN).
Proof.
  split; [done|].
  intros i ws Hi Hconnecting. simpl. rewrite Hi.
  rewrite decide_True by done. repeat split.
  simpl. rewrite list_lookup_insert_eq; [done|].
  by eapply lookup_lt_Some.
Qed.

(** C7: a message whose data [JSON.parse] rejects is dropped and logged:
    the handler only writes the error to the console, so no key is
    invalidated, the last message stays, no socket changes state, no
    timer is armed, and the handler returns normally. *)
Theorem onmessage_drops_malformed (data : string) (h : Hook) :
  JSON_parse data = None ->
  onmessage data h = console_write (error_parse SyntaxError) h /\
  (forall i : nat,
      let h' := step h (SocketMessage i data) in
      invalidated h' = invalidated h /\ lastMessage h' = lastMessage h /\
      sockets h' = sockets h /\ wsRef h' = wsRef h /\
      timers h' = timers h /\ isConnected h' = isConnected h /\
      reconnectAttempts h' = reconnectAttempts h /\
      reconnectTimeoutRef h' = reconnectTimeoutRef h).
Proof.
  intros Hparse.
  assert (E : onmessage data h = console_write (error_parse SyntaxError) h).
  { unfold onmessage, try_catch, parse, lift, mbind, M_bind.
    by rewrite Hparse. }
  split; [exact E|].
  intros i. simpl. destruct (sockets h !! i) as [ws|]; [|done].
  destruct (decide (ws_readyState ws = OPEN)); [|done].
  by rewrite E.
Qed.

(** C8: when there is no current socket or it is not open, [sendMessage]
    leaves the whole store as it is; when the current socket is open,
    it hands the socket one frame, the message with its timestamp
    serialized as one JSON object, and changes nothing else. *)
Theorem sendMessage_only_when_open
    (message : OutMessage) (now : string) (h : Hook) :
  ((forall ws, current_socket h = Some ws -> ws_readyState ws <> OPEN) ->
   sendMessage message now h = h) /\
  (forall (i : nat) (ws : Socket),
      wsRef h = Some i -> sockets h !! i = Some ws ->
      ws_readyState ws = OPEN ->
      sendMessage message now h =
        update_socket i
          (WebSocket_send (JSON_stringify (stamped message now)) ws) h).
Proof.
  unfold sendMessage, current_socket. split.
  - intros Hclosed. destruct (wsRef h) as [i|]; [|done]. simpl in Hclosed.
    destruct (sockets h !! i) as [ws|]; [|done].
    rewrite decide_False; [done|]. by apply Hclosed.
  - intros i ws -> -> Hopen. by rewrite decide_True.
Qed.

(** C9, as the code has it: when [VITE_WS_URL] is unset or empty the
    effect still connects, to the built-in default endpoint; a URL the
    constructor rejects is logged and the store is otherwise unchanged. *)
Theorem absent_url_falls_back_to_default (userId : string) (h : Hook) :
  VITE_WS_URL = None \/ VITE_WS_URL = Some EmptyString ->
  userId <> EmptyString ->
  let url := "wss://api.lancerscape.in/ws?userId=" +:+ userId in
  (WebSocket_accepts url = true ->
   step h (EffectRun userId) =
     set_wsRef (Some (length (sockets h)))
       (set_sockets (sockets h ++ [WebSocket_new url userId]) h)) /\
  (WebSocket_accepts url = false ->
   step h (EffectRun userId) = console_write error_connect h).
Proof.
  intros Henv Huser url.
  assert (Eurl : wsUrl userId = url).
  { unfold wsUrl, ws_base. destruct Henv as [-> | ->]; reflexivity. }
  cbn [step]. unfold effect_run.
  destruct (String.eqb_spec userId EmptyString) as [|_]; [done|].
  unfold connect. rewrite Eurl.
  split; intros ->; reflexivity.
Qed.

End Transport.

(** ** The reconnection policy *)

Section Policy.
Context {platform : Platform}.

Lemma delays_insert_disarm (l : list Timer) (t : nat) (tm : Timer) :
  l !! t = Some tm -> t_delay <$> <[t := disarm tm]> l = t_delay <$> l.
Proof.
  intros Ht. rewrite list_fmap_insert. simpl.
  apply list_insert_id. rewrite list_lookup_fmap, Ht. done.
Qed.

Lemma delays_alter_disarm (l : list Timer) (t : nat) :
  t_delay <$> alter disarm t l = t_delay <$> l.
Proof.
  revert t. induction l as [|x l IH]; intros [|t]; simpl; try done.
  f_equal. apply IH.
Qed.

(** [handleMessage] touches nothing but the list of invalidated keys,
    which it extends. *)
Lemma handleMessage_frame (message : Value) (h : Hook) :
  exists keys, (handleMessage message h).2
               = set_invalidated (invalidated h ++ keys) h.
Proof.
  assert (Hsame : h = set_invalidated (invalidated h ++ []) h).
  { rewrite app_nil_r. by destruct h. }
  unfold handleMessage, data_projectId, invalidateQueries, effect, lift,
    mbind, M_bind.
  repeat (case_match; simplify_eq/=);
    rewrite ?set_invalidated_twice, <- ?app_assoc;
    first [ by exists [] | by eexists ].
Qed.

Lemma onmessage_frame (data : string) (h : Hook) :
  let h' := onmessage data h in
  reconnectAttempts h' = reconnectAttempts h /\ timers h' = timers h /\
  sockets h' = sockets h /\ wsRef h' = wsRef h /\
  reconnectTimeoutRef h' = reconnectTimeoutRef h /\
  isConnected h' = isConnected h.
Proof.
  unfold onmessage, try_catch, parse, effect, lift, mbind, M_bind.
  destruct (JSON_parse data) as [message|]; [|done].
  destruct (handleMessage_frame message (setLastMessage message h))
    as [keys Hkeys].
  destruct (handleMessage message (setLastMessage message h)) as [[[]|e] h'];
    simpl in Hkeys; subst h'; done.
Qed.

(** An event that is neither an open nor a delivered close leaves the
    retry counter and the armed delays alone. *)
Lemma step_quiet (h : Hook) (e : Event) :
  is_open_event e = false -> delivers_close h e = false ->
  reconnectAttempts (step h e) = reconnectAttempts h /\
  delays (step h e) = delays h.
Proof.
  unfold delays.
  destruct e as [userId| |i|i data|i|i|t|message now]; simpl;
    intros Hopen Hclose; try done.
  - unfold effect_run, connect. by repeat case_match.
  - unfold effect_cleanup, clearTimeout.
    repeat case_match; simpl; by rewrite ?delays_alter_disarm.
  - destruct (sockets h !! i) as [ws|]; [|done]. case_decide; [|done].
    destruct (onmessage_frame data h) as (-> & -> & _). done.
  - destruct (sockets h !! i) as [ws|]; [|done]. by case_decide.
  - destruct (sockets h !! i) as [ws|]; [|done].
    apply bool_decide_eq_false in Hclose. case_decide; [done|].
    by destruct Hclose.
  - destruct (timers h !! t) as [tm|] eqn:Ht; [|done].
    destruct (t_pending tm); [|done].
    unfold reconnect, connect. case_match; simpl;
      by rewrite (delays_insert_disarm _ _ _ Ht).
  - unfold sendMessage. by repeat case_match.
Qed.

(** A delivered close increments the counter and arms one timer with the
    backoff delay of the new counter value, unless the counter has
    reached the maximum. *)
Lemma step_close (h : Hook) (e : Event) :
  delivers_close h e = true ->
  (reconnectAttempts h < maxReconnectAttempts ->
   reconnectAttempts (step h e) = reconnectAttempts h + 1 /\
   delays (step h e)
   = (delays h ++ [backoff_delay (reconnectAttempts h + 1)])%list) /\
  (maxReconnectAttempts <= reconnectAttempts h ->
   reconnectAttempts (step h e) = reconnectAttempts h /\
   delays (step h e) = delays h).
Proof.
  unfold delays. destruct e; simpl; try done.
  destruct (sockets h !! i) as [ws|]; [|done].
  intros Hclose%bool_decide_eq_true. rewrite decide_False by done.
  unfold onclose. simpl. split; intros Hc.
  - apply Z.ltb_lt in Hc. rewrite Hc. simpl.
    by rewrite fmap_app.
  - apply Z.ltb_ge in Hc. by rewrite Hc.
Qed.

(** An open event resets the counter or does nothing. *)
Lemma step_open (h : Hook) (i : nat) :
  reconnectAttempts (step h (SocketOpen i)) = 0 \/
  step h (SocketOpen i) = h.
Proof.
  simpl. destruct (sockets h !! i) as [ws|]; [|by right].
  case_decide; [by left | by right].
Qed.

Lemma run_cons (h : Hook) (e : Event) (trace : list Event) :
  run h (e :: trace) = run (step h e) trace.
Proof. reflexivity. Qed.

(** Without an open, the counter counts the delivered closes up to the
    maximum, and the timers armed on the way carry the backoff delays of
    the successive counter values. *)
Lemma policy_run (trace : list Event) (h : Hook) :
  0 <= reconnectAttempts h <= maxReconnectAttempts ->
  no_open trace ->
  reconnectAttempts (run h trace)
  = Z.min maxReconnectAttempts
      (reconnectAttempts h + Z.of_nat (closes_delivered h trace)) /\
  delays (run h trace)
  = (delays h ++
     (backoff_delay <$>
      seqZ (reconnectAttempts h + 1)
        (reconnectAttempts (run h trace) - reconnectAttempts h)))%list.
Proof.
  unfold maxReconnectAttempts.
  revert h. induction trace as [|e trace IH]; intros h Hc Hno.
  - simpl. split; [lia|]. rewrite Z.sub_diag. simpl. by rewrite app_nil_r.
  - apply Forall_cons in Hno as [He Hno]. rewrite run_cons.
    cbn [closes_delivered]. destruct (delivers_close h e) eqn:Hclose.
    + destruct (step_close h e Hclose) as [Hlt Hge].
      unfold maxReconnectAttempts in *.
      destruct (Z_lt_le_dec (reconnectAttempts h) 5) as [Hlt5|Hge5].
      * destruct (Hlt Hlt5) as [Ec Ed].
        destruct (IH (step h e)) as [IHc IHd]; [lia|done|].
        split; [lia|]. rewrite IHd, Ed, <- app_assoc. f_equal.
        rewrite Ec. simpl.
        rewrite (seqZ_cons (reconnectAttempts h + 1)) by lia.
        rewrite fmap_cons. do 3 f_equal; lia.
      * destruct (Hge Hge5) as [Ec Ed].
        destruct (IH (step h e)) as [IHc IHd]; [lia|done|].
        split; [lia|]. by rewrite IHd, Ed, Ec.
    + destruct (step_quiet h e He Hclose) as [Ec Ed].
      destruct (IH (step h e)) as [IHc IHd]; [lia|done|].
      split; [lia|]. by rewrite IHd, Ed, Ec.
Qed.

Lemma backoff_schedule_formula (n : nat) :
  backoff_delay <$> seqZ 1 (Z.min 5 (Z.of_nat n)) = take n backoff_schedule.
Proof.
  do 5 (destruct n as [|n]; [reflexivity|]).
  rewrite Z.min_l by lia. unfold backoff_schedule. simpl take.
  rewrite take_nil. reflexivity.
Qed.

(** The counter stays within its bounds, whatever happens. *)
Lemma retry_counter_bounded (trace : list Event) (h : Hook) :
  0 <= reconnectAttempts h <= maxReconnectAttempts ->
  0 <= reconnectAttempts (run h trace) <= maxReconnectAttempts.
Proof.
  unfold maxReconnectAttempts.
  revert h. induction trace as [|e trace IH]; intros h Hc; [done|].
  rewrite run_cons. apply IH.
  destruct (is_open_event e) eqn:Hopen.
  - destruct e; try discriminate.
    destruct (step_open h i) as [-> | ->]; lia.
  - destruct (delivers_close h e) eqn:Hclose.
    + destruct (step_close h e Hclose) as [Hlt Hge].
      unfold maxReconnectAttempts in *.
      destruct (Z_lt_le_dec (reconnectAttempts h) 5) as [Hlt5|Hge5].
      * destruct (Hlt Hlt5) as [-> _]. lia.
      * destruct (Hge Hge5) as [-> _]. lia.
    + destruct (step_quiet h e Hopen Hclose) as [-> _]. lia.
Qed.

(** In a quiescent store no browser event is enabled. *)
Lemma quiescent_step (h : Hook) (e : Event) :
  quiescent h -> is_browser_event e = true -> step h e = h.
Proof.
  intros [Hsockets Htimers] He.
  destruct e as [| |i|i data|i|i|t|]; try discriminate; simpl.
  - destruct (sockets h !! i) as [ws|] eqn:Hi; [|done].
    rewrite (Forall_lookup_1 _ _ _ _ Hsockets Hi).
    by rewrite decide_False.
  - destruct (sockets h !! i) as [ws|] eqn:Hi; [|done].
    rewrite (Forall_lookup_1 _ _ _ _ Hsockets Hi).
    by rewrite decide_False.
  - destruct (sockets h !! i) as [ws|] eqn:Hi; [|done].
    rewrite (Forall_lookup_1 _ _ _ _ Hsockets Hi).
    by rewrite decide_True.
  - destruct (sockets h !! i) as [ws|] eqn:Hi; [|done].
    rewrite (Forall_lookup_1 _ _ _ _ Hsockets Hi).
    by rewrite decide_True.
  - destruct (timers h !! t) as [tm|] eqn:Ht; [|done].
    by rewrite (Forall_lookup_1 _ _ _ _ Htimers Ht).
Qed.

Lemma quiescent_run (h : Hook) (trace : list Event) :
  quiescent h -> Forall (fun e => is_browser_event e = true) trace ->
  run h trace = h.
Proof.
  intros Hq. induction 1 as [|e trace He _ IH]; [done|].
  by rewrite run_cons, (quiescent_step h e Hq He).
Qed.

End Policy.

Section PolicyClaims.
Context {platform : Platform}.

(** C3: the delay armed at a failure is [min(1000 * 2^attempt, 30000)] for
    the retry counter after its increment, which for the counter values
    1 to 5 is the schedule 2000, 4000, 8000, 16000, 30000; and in every
    run that starts with the counter at 0 and contains no open, the
    delays armed are the first entries of that schedule, one for each
    close delivered: all five once five closes have been delivered. *)
Theorem backoff_delays_follow_schedule :
  backoff_schedule = backoff_delay <$> seqZ 1 5 /\
  (forall (userId : string) (h : Hook),
      0 <= reconnectAttempts h ->
      reconnectAttempts h < maxReconnectAttempts ->
      reconnectAttempts (onclose userId h) = reconnectAttempts h + 1 /\
      timers (onclose userId h)
      = (timers h ++
         [{| t_delay :=
               Z.min (1000 * 2 ^ reconnectAttempts (onclose userId h)) 30000;
             t_userId := userId; t_pending := true |}])%list) /\
  (forall (h : Hook) (trace : list Event),
      reconnectAttempts h = 0 ->
      no_open trace ->
      delays (run h trace)
      = (delays h ++ take (closes_delivered h trace) backoff_schedule)%list).
Proof.
  split; [reflexivity|]. split.
  - intros userId h _ Hlt. unfold onclose. simpl.
    apply Z.ltb_lt in Hlt. rewrite Hlt. done.
  - intros h trace Hzero Hno.
    destruct (policy_run trace h) as [Ec Ed];
      [unfold maxReconnectAttempts; lia | done |].
    rewrite Ed. f_equal. rewrite Ec, Hzero. unfold maxReconnectAttempts.
    rewrite Z.add_0_l, Z.sub_0_r. apply backoff_schedule_formula.
Qed.

Lemma view_effect_run (h : Hook) (c : Z) (ss : list Socket) (ts : list Timer)
    (userId : string) :
  policy_view h c ss ts ->
  userId <> EmptyString ->
  WebSocket_accepts (wsUrl userId) = true ->
  policy_view (step h (EffectRun userId)) c
    (ss ++ [WebSocket_new (wsUrl userId) userId]) ts.
Proof.
  intros (<- & <- & <-) Huser Haccepts. cbn [step]. unfold effect_run.
  destruct (String.eqb_spec userId EmptyString) as [|_]; [done|].
  unfold connect. by rewrite Haccepts.
Qed.

Lemma view_close (h : Hook) (c : Z) (ss : list Socket) (ts : list Timer)
    (i : nat) (ws : Socket) :
  policy_view h c ss ts ->
  ss !! i = Some ws ->
  ws_readyState ws <> CLOSED ->
  policy_view (step h (SocketClose i))
    (if c <? maxReconnectAttempts then c + 1 else c)
    (<[i := set_readyState CLOSED ws]> ss)
    (if c <? maxReconnectAttempts
     then ts ++ [{| t_delay := Z.min (1000 * 2 ^ (c + 1)) 30000;
                    t_userId := ws_userId ws; t_pending := true |}]
     else ts).
Proof.
  intros (<- & <- & <-) Hi Hlive. cbn [step]. rewrite Hi.
  rewrite decide_False by done. unfold onclose. simpl.
  by destruct (reconnectAttempts h <? maxReconnectAttempts).
Qed.

Lemma view_timer (h : Hook) (c : Z) (ss : list Socket) (ts : list Timer)
    (t : nat) (tm : Timer) :
  policy_view h c ss ts ->
  ts !! t = Some tm ->
  t_pending tm = true ->
  WebSocket_accepts (wsUrl (t_userId tm)) = true ->
  policy_view (step h (TimerFired t)) c
    (ss ++ [WebSocket_new (wsUrl (t_userId tm)) (t_userId tm)])
    (<[t := disarm tm]> ts).
Proof.
  intros (<- & <- & <-) Ht Hpending Haccepts. cbn [step].
  rewrite Ht, Hpending. unfold reconnect, connect. simpl.
  by rewrite Haccepts.
Qed.

Local Ltac closes V i :=
  match goal with
  | V : policy_view ?h _ _ _ |- context [step ?h (SocketClose i)] =>
      let h' := fresh "h" in
      let E := fresh "E" in
      remember (step h (SocketClose i)) as h' eqn:E;
      eapply (view_close _ _ _ _ i) in V; [|reflexivity|discriminate];
      rewrite <- E in V; clear E; cbn -[wsUrl] in V
  end.

Local Ltac fires V t Haccepts :=
  match goal with
  | V : policy_view ?h _ _ _ |- context [step ?h (TimerFired t)] =>
      let h' := fresh "h" in
      let E := fresh "E" in
      remember (step h (TimerFired t)) as h' eqn:E;
      eapply (view_timer _ _ _ _ t) in V;
        [|reflexivity|reflexivity|exact Haccepts];
      rewrite <- E in V; clear E; cbn -[wsUrl] in V
  end.

(** What the failing run leaves behind, on any platform that accepts the
    URL: six closed sockets, the five timers of the schedule, all fired,
    and the counter at 5. *)
Lemma failing_run_result (userId : string) :
  userId <> EmptyString ->
  WebSocket_accepts (wsUrl userId) = true ->
  let closed := set_readyState CLOSED (WebSocket_new (wsUrl userId) userId) in
  let fired := fun delay =>
    {| t_delay := delay; t_userId := userId; t_pending := false |} in
  policy_view (run initial (failing_run userId)) 5
    [closed; closed; closed; closed; closed; closed]
    [fired 2000; fired 4000; fired 8000; fired 16000; fired 30000].
Proof.
  intros Huser Haccepts closed fired.
  unfold failing_run, run. cbn [fold_left].
  remember (step initial (EffectRun userId)) as h0 eqn:E0.
  assert (V : policy_view h0 0 [WebSocket_new (wsUrl userId) userId] []).
  { rewrite E0. by apply (view_effect_run initial 0 [] []). }
  clear E0.
  closes V 0%nat. fires V 0%nat Haccepts.
  closes V 1%nat. fires V 1%nat Haccepts.
  closes V 2%nat. fires V 2%nat Haccepts.
  closes V 3%nat. fires V 3%nat Haccepts.
  closes V 4%nat. fires V 4%nat Haccepts.
  closes V 5%nat.
  exact V.
Qed.

(** C4, as the code has it: the retry counter never exceeds 5 in a
    reachable store; once five closes have been delivered without an open
    the counter is 5 and five timers have been armed, with the delays
    2000, 4000, 8000, 16000 and 30000 ms, and from then on no run without
    an open arms another.  The fifth of those timers is still
    armed then; the hook is terminal once the retry it makes has closed as
    well: the failing run ends with the counter at 5, every socket closed
    and every timer fired, and a store without live socket or armed timer
    is changed by no browser event, so that only a run of the effect
    connects again. *)
Theorem gives_up_after_the_fifth_retry :
  (forall trace : list Event,
      0 <= reconnectAttempts (run initial trace) <= maxReconnectAttempts) /\
  (forall (h : Hook) (trace : list Event),
      reconnectAttempts h = 0 ->
      no_open trace ->
      (5 <= closes_delivered h trace)%nat ->
      reconnectAttempts (run h trace) = maxReconnectAttempts /\
      delays (run h trace) = (delays h ++ backoff_schedule)%list /\
      length (timers (run h trace)) = (length (timers h) + 5)%nat /\
      forall more : list Event,
        no_open more ->
        reconnectAttempts (run (run h trace) more) = maxReconnectAttempts /\
        delays (run (run h trace) more) = delays (run h trace)) /\
  (forall userId : string,
      userId <> EmptyString ->
      WebSocket_accepts (wsUrl userId) = true ->
      reconnectAttempts (run initial (failing_run userId))
      = maxReconnectAttempts /\
      delays (run initial (failing_run userId)) = backoff_schedule /\
      length (sockets (run initial (failing_run userId))) = 6%nat /\
      quiescent (run initial (failing_run userId)) /\
      terminal (run initial (failing_run userId))) /\
  (forall h : Hook,
      quiescent h ->
      (forall trace : list Event,
          Forall (fun e => is_browser_event e = true) trace ->
          run h trace = h) /\
      (forall userId : string,
          userId <> EmptyString ->
          WebSocket_accepts (wsUrl userId) = true ->
          sockets (step h (EffectRun userId))
          = (sockets h ++ [WebSocket_new (wsUrl userId) userId])%list)).
Proof.
  split; [|split; [|split]].
  - intros trace. by apply retry_counter_bounded.
  - intros h trace Hzero Hno Hfive.
    destruct (policy_run trace h) as [Ec Ed];
      [unfold maxReconnectAttempts; lia | done |].
    unfold maxReconnectAttempts in *.
    assert (Efive : reconnectAttempts (run h trace) = 5) by lia.
    assert (Edelays : delays (run h trace) = (delays h ++ backoff_schedule)%list).
    { rewrite Ed, Efive, Hzero. reflexivity. }
    split; [done|]. split; [exact Edelays|]. split.
    + rewrite <- (length_fmap t_delay (timers (run h trace))).
      fold (delays (run h trace)). rewrite Edelays.
      rewrite length_app. unfold delays. by rewrite length_fmap.
    + intros more Hmore.
      destruct (policy_run more (run h trace)) as [Ec' Ed'];
        [unfold maxReconnectAttempts; lia | done |].
      unfold maxReconnectAttempts in *.
      assert (Efive' : reconnectAttempts (run (run h trace) more) = 5)
        by lia.
      split; [done|]. rewrite Ed', Efive', Efive. simpl.
      by rewrite app_nil_r.
  - intros userId Huser Haccepts.
    destruct (failing_run_result userId Huser Haccepts)
      as (Hcounter & Hsockets & Htimers).
    assert (Hq : quiescent (run initial (failing_run userId))).
    { unfold quiescent. rewrite Hsockets, Htimers.
      split; by repeat constructor. }
    split; [done|]. split; [unfold delays; by rewrite Htimers|].
    split; [by rewrite Hsockets|]. split; [done|].
    intros trace Hbrowser. by rewrite (quiescent_run _ _ Hq Hbrowser).
  - intros h Hq. split.
    + intros trace Hbrowser. by apply quiescent_run.
    + intros userId Huser Haccepts. cbn [step]. unfold effect_run.
      destruct (String.eqb_spec userId EmptyString) as [|_]; [done|].
      unfold connect. by rewrite Haccepts.
Qed.

(** The cleanup cancels the timer it knows and closes the socket it
    knows: when no socket is live and no other timer is armed (the hook
    is waiting to retry), nothing is left to happen. *)
Lemma effect_cleanup_during_backoff (h : Hook) :
  Forall (fun ws => ws_readyState ws = CLOSED) (sockets h) ->
  (forall t tm, timers h !! t = Some tm -> t_pending tm = true ->
                reconnectTimeoutRef h = Some t) ->
  quiescent (effect_cleanup h).
Proof.
  intros Hsockets Htimers. unfold effect_cleanup, quiescent.
  assert (Hs : forall i,
    Forall (fun ws => ws_readyState ws = CLOSED)
      (alter WebSocket_close i (sockets h))).
  { intros i. apply Forall_lookup. intros j ws.
    rewrite list_lookup_alter.
    destruct (decide (i = j)) as [->|];
      [|by apply (Forall_lookup_1 _ _ _ _ Hsockets)].
    destruct (sockets h !! j) as [ws'|] eqn:Hj; [|done].
    intros [= <-]. unfold WebSocket_close.
    rewrite (Forall_lookup_1 _ _ _ _ Hsockets Hj).
    exact (Forall_lookup_1 _ _ _ _ Hsockets Hj). }
  assert (Ht : forall id, reconnectTimeoutRef h = Some id ->
    Forall (fun t => t_pending t = false) (alter disarm id (timers h))).
  { intros id Hid. apply Forall_lookup. intros j tm.
    rewrite list_lookup_alter.
    destruct (decide (id = j)) as [->|Hne].
    - destruct (timers h !! j); [|done]. by intros [= <-].
    - intros Hj. destruct (t_pending tm) eqn:Hp; [|done].
      specialize (Htimers j tm Hj Hp). congruence. }
  assert (Hnone : reconnectTimeoutRef h = None ->
    Forall (fun t => t_pending t = false) (timers h)).
  { intros Hid. apply Forall_lookup. intros j tm Hj.
    destruct (t_pending tm) eqn:Hp; [|done].
    specialize (Htimers j tm Hj Hp). congruence. }
  destruct (reconnectTimeoutRef h) as [id|] eqn:Hid;
    destruct (wsRef h) as [i|] eqn:Hi; simpl; rewrite ?Hi; simpl; auto.
Qed.

End PolicyClaims.

(** ** Runs on the executable platform *)

Section Runs.
Local Existing Instance unconfigured.

Lemma no_open_five_failures : no_open five_failures.
Proof. repeat constructor. Qed.

Lemma backoff_delays_follow_schedule_witness :
  delays (run initial five_failures) = [2000; 4000; 8000; 16000; 30000].
Proof.
  exact (proj2 (proj2 backoff_delays_follow_schedule)
           initial five_failures eq_refl no_open_five_failures).
Defined.

(** After the failing run a fresh run of the effect connects, but the
    counter is still 5: a further failure arms nothing. *)
Lemma gives_up_after_the_fifth_retry_witness :
  reconnectAttempts (run initial (failing_run "u1")) = 5 /\
  quiescent (run initial (failing_run "u1")) /\
  terminal (run initial (failing_run "u1")) /\
  delays (run (run initial (failing_run "u1")) [EffectRun "u2"; SocketClose 6])
  = delays (run initial (failing_run "u1")).
Proof.
  destruct gives_up_after_the_fifth_retry as (_ & Hfive & Hfailing & _).
  destruct (Hfailing "u1") as (Hcounter & _ & _ & Hquiescent & Hterminal);
    [discriminate | reflexivity |].
  split; [exact Hcounter|]. split; [exact Hquiescent|].
  split; [exact Hterminal|].
  destruct (Hfive initial (failing_run "u1") eq_refl) as (_ & _ & _ & Hmore).
  - repeat constructor.
  - vm_compute. lia.
  - apply (Hmore [EffectRun "u2"; SocketClose 6]). repeat constructor.
Defined.

(** C4, as stated, fails: after five closes without an open the hook is
    not terminal.  The fifth timer is still armed, it fires and connects
    without any run of the effect; and when that retry opens and closes, a
    sixth timer is armed. *)
Lemma five_closes_are_not_terminal :
  let h := run initial (five_closes "u1") in
  (closes_delivered initial (five_closes "u1") = 5%nat /\
   no_open (five_closes "u1") /\ reconnectAttempts h = 5) /\
  ~ terminal h /\
  (length (sockets h) = 5%nat /\
   length (sockets (run h [TimerFired 4])) = 6%nat) /\
  delays (run h [TimerFired 4; SocketOpen 5; SocketClose 5])
  = [2000; 4000; 8000; 16000; 30000; 2000].
Proof.
  intros h. split; [|split; [|split]].
  - split; [reflexivity|]. split; [repeat constructor|reflexivity].
  - intros Hterminal.
    destruct (Hterminal [TimerFired 4]) as [_ Hsockets];
      [repeat constructor|].
    vm_compute in Hsockets. discriminate.
  - split; reflexivity.
  - reflexivity.
Qed.

(** The scenario of the specification: one involuntary close, then the
    reconnect succeeds. *)
Lemma open_resets_retry_counter_witness :
  let h := run initial [EffectRun "u1"; SocketClose 0; TimerFired 0] in
  reconnectAttempts h = 1 /\
  reconnectAttempts (step h (SocketOpen 1)) = 0 /\
  isConnected (step h (SocketOpen 1)) = true.
Proof.
  intros h. split; [reflexivity|].
  destruct (proj2 (open_resets_retry_counter h) 1%nat
              (WebSocket_new "wss://api.lancerscape.in/ws?userId=u1" "u1")
              eq_refl eq_refl) as (Hcounter & Hconnected & _).
  split; [exact Hcounter | exact Hconnected].
Defined.

Lemma onmessage_drops_malformed_witness :
  JSON_parse "not json" = None /\
  onmessage "not json" initial
  = console_write (error_parse SyntaxError) initial.
Proof.
  split; [reflexivity|].
  exact (proj1 (onmessage_drops_malformed "not json" initial eq_refl)).
Defined.

Lemma sendMessage_only_when_open_witness :
  let message := {| m_type := file_upload;
                    m_data := JObj [("projectId", JStr "p1")] |} in
  let h := run initial [EffectRun "u1"] in
  sendMessage message "2024-01-01T00:00:00.000Z" h = h /\
  ws_sent <$> sockets
    (sendMessage message "2024-01-01T00:00:00.000Z"
       (step h (SocketOpen 0))) !! 0%nat
  = Some [JSON_stringify (stamped message "2024-01-01T00:00:00.000Z")].
Proof.
  intros message h. split.
  - apply (proj1 (sendMessage_only_when_open message _ h)).
    intros ws [= <-]. discriminate.
  - rewrite (proj2 (sendMessage_only_when_open message _
                      (step h (SocketOpen 0))) 0%nat
               (set_readyState OPEN
                  (WebSocket_new "wss://api.lancerscape.in/ws?userId=u1"
                     "u1"))
               eq_refl eq_refl eq_refl).
    reflexivity.
Defined.

(** C9, as stated, fails: with no push URL configured the effect opens a
    socket to the default endpoint. *)
Lemma absent_url_still_connects :
  ~ absent_url_disables "u1" initial /\
  sockets (step initial (EffectRun "u1"))
  = [WebSocket_new "wss://api.lancerscape.in/ws?userId=u1" "u1"].
Proof.
  split; [|reflexivity].
  intros Hclaim. specialize (Hclaim eq_refl). discriminate Hclaim.
Qed.

Lemma absent_url_falls_back_to_default_witness :
  step initial (EffectRun "u1")
  = set_wsRef (Some 0%nat)
      (set_sockets
         [WebSocket_new "wss://api.lancerscape.in/ws?userId=u1" "u1"]
         initial).
Proof.
  destruct (absent_url_falls_back_to_default "u1" initial) as [Hok _].
  - left. reflexivity.
  - discriminate.
  - apply Hok. reflexivity.
Defined.

(** C2 on the code.  The hook connects and is torn down while connected:
    the cleanup closes the socket and leaves no timer armed; then the
    browser delivers the close event of that socket, the close handler arms
    a reconnect timer, the timer connects again, the new socket opens and
    a message on it invalidates a query.  When the teardown is a change of
    identity, the close event of the old socket marks the hook
    disconnected while the new socket is open, and its timer replaces the
    current socket by one for the old identity. *)
Theorem teardown_does_not_stop_reconnection :
  let torn := run initial until_teardown in
  let late := run torn after_teardown in
  let changed := run initial identity_change in
  (ws_readyState <$> sockets torn = [CLOSING] /\ timers torn = [] /\
   invalidated torn = []) /\
  timers (step torn (SocketClose 0))
  = [{| t_delay := 2000; t_userId := "u1"; t_pending := true |}] /\
  (ws_readyState <$> sockets late = [CLOSED; OPEN] /\
   invalidated late = [[JStr "milestones"; JStr "p1"]]) /\
  (isConnected changed = false /\
   ws_readyState <$> sockets changed = [CLOSED; OPEN; CONNECTING] /\
   ws_userId <$> sockets changed = ["u1"; "u2"; "u1"] /\
   wsRef changed = Some 2%nat).
Proof. vm_compute. repeat split. Qed.

(** Teardown while the hook waits to retry does end all activity. *)
Lemma teardown_during_backoff :
  quiescent (run initial [EffectRun "u1"; SocketClose 0; EffectCleanup]).
Proof.
  apply (effect_cleanup_during_backoff
           (run initial [EffectRun "u1"; SocketClose 0])).
  - repeat constructor.
  - intros [|[|t]] tm; vm_compute; congruence.
Qed.

End Runs.

(** ** The milestone board *)

Module MilestoneBoardFacts.
Import MilestoneBoard.

Lemma columns_permutation (milestones : list Milestone) :
  filter (fun m => status m = Pending) milestones ++
  filter (fun m => status m = InProgress) milestones ++
  filter (fun m => status m = Completed) milestones ≡ₚ milestones.
Proof.
  induction milestones as [|m l IH]; [done|].
  rewrite !filter_cons.
  destruct (status m); repeat case_decide; try done.
  - simpl. by f_equiv.
  - simpl. rewrite <- Permutation_middle. by f_equiv.
  - rewrite app_assoc, <- Permutation_middle, <- app_assoc. by f_equiv.
Qed.




End MilestoneBoardFacts.

(** * More properties of the code *)

(** ** Lists *)

Lemma filter_all {A : Type} (P : A -> Prop) `{!forall x, Decision (P x)}
    (l : list A) :
  Forall P l -> filter P l = l.
Proof.
  induction 1 as [|x l Hx _ IH]; [done|].
  by rewrite filter_cons_True, IH.
Qed.

Lemma filter_none {A : Type} (P : A -> Prop) `{!forall x, Decision (P x)}
    (l : list A) :
  Forall (fun x => ~ P x) l -> filter P l = [].
Proof.
  induction 1 as [|x l Hx _ IH]; [done|].
  by rewrite filter_cons_False.
Qed.

Lemma filter_sublist_mono {A : Type} (P Q : A -> Prop)
    `{!forall x, Decision (P x)} `{!forall x, Decision (Q x)} (l : list A) :
  (forall x, P x -> Q x) -> filter P l `sublist_of` filter Q l.
Proof.
  intros HPQ. induction l as [|x l IH]; [done|].
  rewrite !filter_cons.
  destruct (decide (P x)) as [HP|HP], (decide (Q x)) as [HQ|HQ].
  - by constructor.
  - destruct HQ. by apply HPQ.
  - by constructor.
  - done.
Qed.

(** ** The hook: invariants of every run *)

Section HookInvariants.
Context {platform : Platform}.

Lemma run_snoc (h : Hook) (trace : list Event) (e : Event) :
  run h (trace ++ [e]) = step (run h trace) e.
Proof. unfold run. by rewrite fold_left_app. Qed.

Lemma step_refs_valid (h : Hook) (e : Event) :
  refs_valid h -> refs_valid (step h e).
Proof.
  unfold refs_valid.
  destruct e as [userId| |i|i data|i|i|t|message now]; cbn [step].
  - unfold effect_run, connect.
    destruct (String.eqb userId EmptyString), (WebSocket_accepts (wsUrl userId));
      simpl; rewrite ?length_app; simpl; intros [? ?]; split; try done; lia.
  - unfold effect_cleanup, clearTimeout.
    destruct (reconnectTimeoutRef h) as [id|] eqn:Hid;
      destruct (wsRef h) as [j|] eqn:Hj; simpl; rewrite ?Hj, ?Hid; simpl;
      rewrite ?Hj, ?Hid; simpl; by rewrite ?length_alter.
  - destruct (sockets h !! i) as [ws|]; [|done]. case_decide; [|done].
    simpl. by rewrite length_insert.
  - destruct (sockets h !! i) as [ws|]; [|done]. case_decide; [|done].
    destruct (onmessage_frame data h) as (_ & -> & -> & -> & -> & _). done.
  - destruct (sockets h !! i) as [ws|]; [|done]. by case_decide.
  - destruct (sockets h !! i) as [ws|]; [|done]. case_decide; [done|].
    unfold onclose. simpl.
    destruct (reconnectAttempts h <? maxReconnectAttempts); simpl;
      rewrite length_insert, ?length_app; simpl; intros [? ?]; split;
      try done; lia.
  - destruct (timers h !! t) as [tm|]; [|done].
    destruct (t_pending tm); [|done].
    unfold reconnect, connect.
    destruct (WebSocket_accepts (wsUrl (t_userId tm))); simpl;
      rewrite length_insert, ?length_app; simpl; intros [? ?]; split;
      try done; lia.
  - unfold sendMessage.
    destruct (wsRef h) as [j|] eqn:Hj; [|by rewrite Hj].
    destruct (sockets h !! j) as [ws|]; [|by rewrite Hj].
    case_decide; simpl; rewrite ?length_insert, ?Hj; done.
Qed.

Lemma run_refs_valid (trace : list Event) (h : Hook) :
  refs_valid h -> refs_valid (run h trace).
Proof.
  revert h. induction trace as [|e trace IH]; intros h Hh; [done|].
  rewrite run_cons. by apply IH, step_refs_valid.
Qed.

(** X1: in every store the hook reaches, [wsRef.current], once set, is a
    socket the hook has created, and [reconnectTimeoutRef.current], once
    set, is a timer it has armed. *)
Theorem refs_name_what_exists (trace : list Event) :
  (forall i, wsRef (run initial trace) = Some i ->
             is_Some (sockets (run initial trace) !! i)) /\
  (forall t, reconnectTimeoutRef (run initial trace) = Some t ->
             is_Some (timers (run initial trace) !! t)).
Proof.
  destruct (run_refs_valid trace initial) as [Hws Ht]; [by split|].
  split; intros n Hn; apply lookup_lt_is_Some; rewrite Hn in *; done.
Qed.

(** What a decoded message does to the store: it is stored, keys are
    invalidated, and an error of the routing is written to the console. *)
Lemma onmessage_effect (data : string) (h : Hook) :
  exists keys logs,
    invalidated (onmessage data h) = (invalidated h ++ keys)%list /\
    console (onmessage data h) = (console h ++ logs)%list.
Proof.
  unfold onmessage, try_catch, parse, effect, lift, mbind, M_bind.
  destruct (JSON_parse data) as [message|].
  - destruct (handleMessage_frame message (setLastMessage message h))
      as [keys Hkeys].
    destruct (handleMessage message (setLastMessage message h))
      as [[[]|e] h']; simpl in Hkeys; subst h'; simpl.
    + exists keys, []. by rewrite app_nil_r.
    + by exists keys, [error_parse e].
  - exists [], [error_parse SyntaxError]. simpl. by rewrite app_nil_r.
Qed.

Lemma message_extends_invalidated (i : nat) (data : string)
    (h : Hook) :
  invalidated h `prefix_of` invalidated (step h (SocketMessage i data)).
Proof.
  cbn [step]. destruct (sockets h !! i) as [ws|]; [|done].
  case_decide; [|done].
  destruct (onmessage_effect data h) as (keys & logs & -> & _).
  by apply prefix_app_r.
Qed.

(** X2: a message event, whatever its data and whether or not it decodes
    or routes, leaves the connection alone: the connection flag, the retry
    counter, every socket, every timer and both refs are as before; the
    invalidated keys and the console are only extended. *)
Theorem message_leaves_connection_alone (i : nat) (data : string) (h : Hook) :
  let h' := step h (SocketMessage i data) in
  (isConnected h' = isConnected h /\
   reconnectAttempts h' = reconnectAttempts h /\
   sockets h' = sockets h /\ timers h' = timers h /\
   wsRef h' = wsRef h /\ reconnectTimeoutRef h' = reconnectTimeoutRef h) /\
  invalidated h `prefix_of` invalidated h' /\
  console h `prefix_of` console h'.
Proof.
  cbn [step]. destruct (sockets h !! i) as [ws|]; [|done].
  case_decide; [|done].
  destruct (onmessage_frame data h) as (Hc & Ht & Hs & Hw & Hr & Hi).
  destruct (onmessage_effect data h) as (keys & logs & Hk & Hl).
  repeat split; try done.
  - rewrite Hk. by apply prefix_app_r.
  - rewrite Hl. by apply prefix_app_r.
Qed.

(** X3: a message of a recognized kind other than a notification whose
    payload is [null] or missing is stored as the last message, but its
    routing stops at the read of [projectId]: the TypeError is caught and
    written to the console, no key of that project is invalidated, and for
    a project update the project list has already been invalidated. *)
Theorem message_without_payload
    (kind : MessageType) (data : string) (message payload : Value) (h : Hook) :
  JSON_parse data = Some message ->
  get_property message "type" = Ok (JStr (type_name kind)) ->
  get_property message "data" = Ok payload ->
  payload = JNull \/ payload = JUndefined ->
  kind <> notification ->
  onmessage data h =
    console_write (error_parse TypeError)
      (set_invalidated
         (invalidated h ++
          match kind with
          | project_update => [[JStr "projects"]]
          | _ => []
          end) (setLastMessage message h)).
Proof.
  intros Hparse Htype Hdata Hnull Hkind.
  unfold onmessage, try_catch, parse, effect, lift, mbind, M_bind.
  rewrite Hparse.
  unfold handleMessage, data_projectId, invalidateQueries, effect, lift,
    mbind, M_bind.
  rewrite Htype, Hdata.
  destruct Hnull as [-> | ->]; destruct kind; try done; simpl;
    by rewrite ?app_nil_r.
Qed.

Lemma step_invalidated (h : Hook) (e : Event) :
  is_message_event e = false ->
  invalidated (step h e) = invalidated h /\
  lastMessage (step h e) = lastMessage h.
Proof.
  destruct e as [userId| |i|i data|i|i|t|message now]; cbn [step];
    intros He; try done.
  - unfold effect_run, connect. by repeat case_match.
  - unfold effect_cleanup, clearTimeout. by repeat case_match.
  - destruct (sockets h !! i) as [ws|]; [|done]. by case_decide.
  - destruct (sockets h !! i) as [ws|]; [|done]. by case_decide.
  - destruct (sockets h !! i) as [ws|]; [|done]. case_decide; [done|].
    unfold onclose. simpl. by case_match.
  - destruct (timers h !! t) as [tm|]; [|done].
    destruct (t_pending tm); [|done].
    unfold reconnect, connect. by case_match.
  - unfold sendMessage. by repeat case_match.
Qed.

(** X4: only message events invalidate queries.  Over every run the list
    of invalidated keys is only extended, and a run without a message
    event leaves it, and the last message, as they were. *)
Theorem invalidations_come_from_messages (h : Hook) (trace : list Event) :
  invalidated h `prefix_of` invalidated (run h trace) /\
  (Forall (fun e => is_message_event e = false) trace ->
   invalidated (run h trace) = invalidated h /\
   lastMessage (run h trace) = lastMessage h).
Proof.
  split.
  - revert h. induction trace as [|e trace IH]; intros h; [done|].
    rewrite run_cons. etrans; [|apply IH].
    destruct (is_message_event e) eqn:He.
    + destruct e; try discriminate.
      apply (message_extends_invalidated i data h).
    + by rewrite (proj1 (step_invalidated h e He)).
  - revert h. induction trace as [|e trace IH]; intros h Htrace; [done|].
    apply Forall_cons in Htrace as [He Htrace]. rewrite run_cons.
    destruct (IH (step h e) Htrace) as [-> ->].
    by apply step_invalidated.
Qed.

Lemma step_open_delays (h : Hook) (i : nat) :
  delays (step h (SocketOpen i)) = delays h.
Proof.
  cbn [step]. destruct (sockets h !! i) as [ws|]; [|done]. by case_decide.
Qed.

Lemma backoff_delay_in_schedule (c : Z) :
  0 <= c < 5 -> backoff_delay (c + 1) ∈ backoff_schedule.
Proof.
  intros Hc.
  assert (Hcases : c = 0 \/ c = 1 \/ c = 2 \/ c = 3 \/ c = 4) by lia.
  unfold backoff_schedule.
  destruct Hcases as [-> | [-> | [-> | [-> | ->]]]];
    [ change (backoff_delay (0 + 1)) with 2000
    | change (backoff_delay (1 + 1)) with 4000
    | change (backoff_delay (2 + 1)) with 8000
    | change (backoff_delay (3 + 1)) with 16000
    | change (backoff_delay (4 + 1)) with 30000 ];
    rewrite !elem_of_cons; auto 10.
Qed.

Lemma step_delays_in_schedule (h : Hook) (e : Event) :
  0 <= reconnectAttempts h <= 5 ->
  Forall (fun d => d ∈ backoff_schedule) (delays h) ->
  0 <= reconnectAttempts (step h e) <= 5 /\
  Forall (fun d => d ∈ backoff_schedule) (delays (step h e)).
Proof.
  intros Hc Hd. destruct (is_open_event e) eqn:Hopen.
  - destruct e; try discriminate. rewrite step_open_delays. split; [|done].
    destruct (step_open h i) as [-> | ->]; lia.
  - destruct (delivers_close h e) eqn:Hclose.
    + destruct (step_close h e Hclose) as [Hlt Hge].
      unfold maxReconnectAttempts in *.
      destruct (Z_lt_le_dec (reconnectAttempts h) 5) as [Hlt5|Hge5].
      * destruct (Hlt Hlt5) as [-> ->]. split; [lia|].
        apply Forall_app. split; [done|].
        apply Forall_singleton, backoff_delay_in_schedule. lia.
      * destruct (Hge Hge5) as [-> ->]. by split.
    + destruct (step_quiet h e Hopen Hclose) as [-> ->]. by split.
Qed.

(** X5: every timer the hook ever arms has one of the five delays of the
    schedule, so a delay between 2000 and 30000 milliseconds. *)
Theorem timer_delays_within_bounds (trace : list Event) (t : Timer) :
  t ∈ timers (run initial trace) ->
  t_delay t ∈ backoff_schedule /\ 2000 <= t_delay t <= 30000.
Proof.
  assert (Hinv : forall trace h,
    0 <= reconnectAttempts h <= 5 ->
    Forall (fun d => d ∈ backoff_schedule) (delays h) ->
    Forall (fun d => d ∈ backoff_schedule) (delays (run h trace))).
  { clear. intros trace. induction trace as [|e trace IH]; intros h Hc Hd;
      [done|].
    rewrite run_cons.
    destruct (step_delays_in_schedule h e Hc Hd). by apply IH. }
  intros Ht.
  assert (Hin : t_delay t ∈ backoff_schedule).
  { specialize (Hinv trace initial ltac:(simpl; lia) ltac:(constructor)).
    rewrite Forall_forall in Hinv. apply Hinv.
    unfold delays. by apply list_elem_of_fmap_2. }
  split; [done|].
  unfold backoff_schedule in Hin. rewrite !elem_of_cons in Hin.
  destruct Hin as [-> | [-> | [-> | [-> | [-> | Hnil]]]]]; try lia.
  by apply elem_of_nil in Hnil.
Qed.

(** A property of sockets that [connect] establishes and that no method
    of a socket destroys holds of every socket, provided the identities
    the effect and the timers connect with allow it. *)
Lemma step_sockets_Forall (Q : Socket -> Prop) (R : string -> Prop)
    (h : Hook) (e : Event) :
  (forall ws r, Q ws -> Q (set_readyState r ws)) ->
  (forall ws frame, Q ws -> Q (WebSocket_send frame ws)) ->
  (forall u, R u -> Q (WebSocket_new (wsUrl u) u)) ->
  (forall ws, Q ws -> R (ws_userId ws)) ->
  (forall u, e = EffectRun u -> R u) ->
  Forall Q (sockets h) -> Forall (fun t => R (t_userId t)) (timers h) ->
  Forall Q (sockets (step h e)) /\
  Forall (fun t => R (t_userId t)) (timers (step h e)).
Proof.
  intros Hstate Hsend Hnew Hid He Hs Ht.
  assert (Hclose : forall ws, Q ws -> Q (WebSocket_close ws)).
  { intros ws Hws. unfold WebSocket_close. destruct (ws_readyState ws); auto. }
  assert (Hdisarm : forall l j,
    Forall (fun t => R (t_userId t)) l ->
    Forall (fun t => R (t_userId t)) (alter disarm j l)).
  { intros l j Hl. apply Forall_alter; [done|]. by intros [] _. }
  destruct e as [userId| |i|i data|i|i|t|message now]; cbn [step].
  - unfold effect_run, connect.
    destruct (String.eqb userId EmptyString); [done|].
    destruct (WebSocket_accepts (wsUrl userId)); simpl; [|done].
    split; [|done]. apply Forall_app. split; [done|].
    apply Forall_singleton, Hnew. by apply He.
  - unfold effect_cleanup, clearTimeout.
    destruct (reconnectTimeoutRef h) as [id|];
      destruct (wsRef h) as [j|] eqn:Hj; simpl; rewrite ?Hj; simpl;
      split; auto using Forall_alter.
  - destruct (sockets h !! i) as [ws|] eqn:Hi; [|done]. case_decide; [|done].
    simpl. split; [|done]. apply Forall_insert; [done|].
    apply Hstate. by eapply Forall_lookup_1.
  - destruct (sockets h !! i) as [ws|]; [|done]. case_decide; [|done].
    destruct (onmessage_frame data h) as (_ & -> & -> & _). done.
  - destruct (sockets h !! i) as [ws|]; [|done]. by case_decide.
  - destruct (sockets h !! i) as [ws|] eqn:Hi; [|done]. case_decide; [done|].
    assert (Hws : Q ws) by by eapply Forall_lookup_1.
    unfold onclose. simpl.
    destruct (reconnectAttempts h <? maxReconnectAttempts); simpl.
    + split; [by apply Forall_insert; auto|].
      apply Forall_app. split; [done|]. apply Forall_singleton. simpl. auto.
    + split; [by apply Forall_insert; auto|done].
  - destruct (timers h !! t) as [tm|] eqn:Htm; [|done].
    destruct (t_pending tm); [|done].
    assert (Hr : R (t_userId tm)).
    { by apply (Forall_lookup_1 _ _ _ _ Ht Htm). }
    assert (Htimers : Forall (fun t => R (t_userId t))
                        (<[t := disarm tm]> (timers h))).
    { by apply Forall_insert. }
    unfold reconnect, connect.
    destruct (WebSocket_accepts (wsUrl (t_userId tm))); simpl; [|done].
    split; [|done]. apply Forall_app. split; [done|].
    apply Forall_singleton. auto.
  - unfold sendMessage.
    destruct (wsRef h) as [j|]; [|done].
    destruct (sockets h !! j) as [ws|] eqn:Hj; [|done].
    case_decide; [|done]. simpl. split; [|done].
    apply Forall_insert; [done|]. apply Hsend. by eapply Forall_lookup_1.
Qed.

Lemma run_sockets_Forall (Q : Socket -> Prop) (R : string -> Prop)
    (trace : list Event) (h : Hook) :
  (forall ws r, Q ws -> Q (set_readyState r ws)) ->
  (forall ws frame, Q ws -> Q (WebSocket_send frame ws)) ->
  (forall u, R u -> Q (WebSocket_new (wsUrl u) u)) ->
  (forall ws, Q ws -> R (ws_userId ws)) ->
  (forall u, EffectRun u ∈ trace -> R u) ->
  Forall Q (sockets h) -> Forall (fun t => R (t_userId t)) (timers h) ->
  Forall Q (sockets (run h trace)) /\
  Forall (fun t => R (t_userId t)) (timers (run h trace)).
Proof.
  intros Hstate Hsend Hnew Hid. revert h.
  induction trace as [|e trace IH]; intros h He Hs Ht; [done|].
  rewrite run_cons.
  destruct (step_sockets_Forall Q R h e) as [Hs' Ht']; try done.
  { intros u ->. apply He. by left. }
  apply IH; [|done|done]. intros u Hu. apply He. by right.
Qed.

(** X6: every socket the hook ever creates connects to
    [<base>/ws?userId=<userId>] for the identity it was created for, where
    the base is [VITE_WS_URL], or the default when that is unset or
    empty. *)
Theorem sockets_connect_to_the_endpoint (trace : list Event) (ws : Socket) :
  ws ∈ sockets (run initial trace) ->
  ws_url ws =
    match VITE_WS_URL with
    | Some base => if String.eqb base EmptyString then default_ws_url else base
    | None => default_ws_url
    end +:+ "/ws?userId=" +:+ ws_userId ws.
Proof.
  intros Hws.
  destruct (run_sockets_Forall
              (fun ws => ws_url ws = wsUrl (ws_userId ws)) (fun _ => True)
              trace initial) as [Hs _]; try done.
  rewrite Forall_forall in Hs. by apply Hs.
Qed.

Lemma effect_userIds_elem (trace : list Event) (u : string) :
  u ∈ effect_userIds trace <-> EffectRun u ∈ trace.
Proof.
  unfold effect_userIds. rewrite list_elem_of_omap. split.
  - intros (e & He & Hu). destruct e; simplify_eq. done.
  - intros He. by exists (EffectRun u).
Qed.

(** X7: the hook connects only under an identity the effect was run with:
    every socket and every reconnect timer of a run carries the [userId]
    of some run of the effect in that trace, also when a timer fires after
    the identity has changed. *)
Theorem sockets_carry_a_given_identity (trace : list Event) :
  Forall (fun ws => ws_userId ws ∈ effect_userIds trace)
    (sockets (run initial trace)) /\
  Forall (fun t => t_userId t ∈ effect_userIds trace)
    (timers (run initial trace)).
Proof.
  apply (run_sockets_Forall
           (fun ws => ws_userId ws ∈ effect_userIds trace)
           (fun u => u ∈ effect_userIds trace)); try done.
  intros u Hu. by apply effect_userIds_elem.
Qed.

Lemma evolves_refl (ws : Socket) : evolves ws ws.
Proof. by repeat split. Qed.

Lemma evolves_trans (ws1 ws2 ws3 : Socket) :
  evolves ws1 ws2 -> evolves ws2 ws3 -> evolves ws1 ws3.
Proof.
  intros (Hu & Hi & Hr & Hs) (Hu' & Hi' & Hr' & Hs').
  repeat split; [congruence | congruence | lia | by etrans].
Qed.

Lemma evolves_closed (ws ws' : Socket) :
  evolves ws ws' -> ws_readyState ws = CLOSED -> ws_readyState ws' = CLOSED.
Proof.
  intros (_ & _ & Hr & _) Hc. rewrite Hc in Hr.
  destruct (ws_readyState ws'); simpl in Hr; [lia..|done].
Qed.

Lemma evolves_set_readyState (ws : Socket) (r : ReadyState) :
  (readyState_rank (ws_readyState ws) <= readyState_rank r)%nat ->
  evolves ws (set_readyState r ws).
Proof. by repeat split. Qed.

Lemma evolves_close (ws : Socket) : evolves ws (WebSocket_close ws).
Proof.
  unfold WebSocket_close.
  destruct (ws_readyState ws) eqn:E; try apply evolves_refl;
    apply evolves_set_readyState; rewrite E; simpl; lia.
Qed.

Lemma lookup_insert_evolves (l : list Socket) (i j : nat) (ws wi wi' : Socket) :
  l !! i = Some ws -> l !! j = Some wi -> evolves wi wi' ->
  exists ws', <[j := wi']> l !! i = Some ws' /\ evolves ws ws'.
Proof.
  intros Hi Hj Hev. destruct (decide (j = i)) as [->|Hne].
  - exists wi'. split; [|by simplify_eq].
    apply list_lookup_insert_eq. by eapply lookup_lt_Some.
  - exists ws. split; [|apply evolves_refl].
    by rewrite list_lookup_insert_ne.
Qed.

Lemma step_evolves (h : Hook) (e : Event) (i : nat) (ws : Socket) :
  sockets h !! i = Some ws ->
  exists ws', sockets (step h e) !! i = Some ws' /\ evolves ws ws'.
Proof.
  intros Hi.
  assert (Hsame : exists ws', sockets h !! i = Some ws' /\ evolves ws ws').
  { exists ws. split; [done|apply evolves_refl]. }
  assert (Happ : forall new : list Socket,
    exists ws', (sockets h ++ new)%list !! i = Some ws' /\ evolves ws ws').
  { intros new. exists ws. split; [|apply evolves_refl].
    by apply lookup_app_l_Some. }
  destruct e as [userId| |j|j data|j|j|t|message now]; cbn [step].
  - unfold effect_run, connect. repeat case_match; simpl; auto.
  - unfold effect_cleanup, clearTimeout.
    destruct (reconnectTimeoutRef h) as [id|];
      destruct (wsRef h) as [j|] eqn:Hj; simpl; rewrite ?Hj; simpl; auto;
      rewrite list_lookup_alter; case_decide; subst; auto; rewrite Hi;
      eexists; (split; [done|apply evolves_close]).
  - destruct (sockets h !! j) as [wj|] eqn:Hj; [|done].
    case_decide as Hstate; [|done]. simpl.
    eapply lookup_insert_evolves; [done..|].
    apply evolves_set_readyState. rewrite Hstate. simpl. lia.
  - destruct (sockets h !! j) as [wj|]; [|done]. case_decide; [|done].
    destruct (onmessage_frame data h) as (_ & _ & -> & _). done.
  - destruct (sockets h !! j) as [wj|]; [|done]. by case_decide.
  - destruct (sockets h !! j) as [wj|] eqn:Hj; [|done]. case_decide; [done|].
    unfold onclose. simpl.
    destruct (reconnectAttempts h <? maxReconnectAttempts); simpl;
      (eapply lookup_insert_evolves; [done..|]);
      apply evolves_set_readyState; destruct (ws_readyState wj); simpl; lia.
  - destruct (timers h !! t) as [tm|]; [|done].
    destruct (t_pending tm); [|done].
    unfold reconnect, connect. case_match; simpl; auto.
  - unfold sendMessage.
    destruct (wsRef h) as [j|]; [|done].
    destruct (sockets h !! j) as [wj|] eqn:Hj; [|done].
    case_decide; [|done]. simpl.
    eapply lookup_insert_evolves; [done..|].
    repeat split; simpl; try done. by apply prefix_app_r.
Qed.

(** X8: a socket, once created, is never dropped, and over every run its
    URL and identity stay, its state never goes back in the order
    connecting, open, closing, closed, and the frames handed to it are
    only extended; so a closed socket stays closed. *)
Theorem sockets_only_move_forward
    (h : Hook) (trace : list Event) (i : nat) (ws : Socket) :
  sockets h !! i = Some ws ->
  exists ws',
    sockets (run h trace) !! i = Some ws' /\ evolves ws ws' /\
    (ws_readyState ws = CLOSED -> ws_readyState ws' = CLOSED).
Proof.
  revert h ws. induction trace as [|e trace IH]; intros h ws Hi.
  - exists ws. split; [done|]. split; [apply evolves_refl|done].
  - rewrite run_cons.
    destruct (step_evolves h e i ws Hi) as (w1 & H1 & Hev1).
    destruct (IH (step h e) w1 H1) as (w2 & H2 & Hev2 & _).
    exists w2. split; [done|].
    assert (Hev : evolves ws w2) by by eapply evolves_trans.
    split; [done|]. by apply evolves_closed.
Qed.

Lemma WebSocket_close_twice (ws : Socket) :
  WebSocket_close (WebSocket_close ws) = WebSocket_close ws.
Proof. unfold WebSocket_close. by destruct ws as [? [] ? ?]. Qed.

Lemma alter_twice {A : Type} (f : A -> A) (i : nat) (l : list A) :
  (forall x, f (f x) = f x) -> alter f i (alter f i l) = alter f i l.
Proof.
  intros Hf. rewrite list_alter_alter_eq. apply list_alter_ext; [|done].
  intros x _. apply Hf.
Qed.

(** X9: the cleanup can run twice: a second run right after the first
    changes nothing. *)
Theorem effect_cleanup_idempotent (h : Hook) :
  effect_cleanup (effect_cleanup h) = effect_cleanup h.
Proof.
  unfold effect_cleanup, clearTimeout.
  destruct (reconnectTimeoutRef h) as [id|] eqn:Hid;
    destruct (wsRef h) as [j|] eqn:Hj; simpl; rewrite ?Hid, ?Hj; simpl;
    rewrite ?Hid, ?Hj; simpl; unfold set_sockets, set_timers; simpl;
    rewrite ?Hid, ?Hj;
    rewrite ?(alter_twice disarm) by done;
    rewrite ?(alter_twice WebSocket_close) by apply WebSocket_close_twice;
    reflexivity.
Qed.

(** X10: after the cleanup nothing is transmitted any more on the socket
    the hook holds: [sendMessage] leaves the store as the cleanup left
    it. *)
Theorem sendMessage_after_cleanup
    (message : OutMessage) (now : string) (h : Hook) :
  sendMessage message now (effect_cleanup h) = effect_cleanup h.
Proof.
  unfold sendMessage.
  assert (Hws : wsRef (effect_cleanup h) = wsRef h).
  { unfold effect_cleanup, clearTimeout. by repeat case_match. }
  rewrite Hws. destruct (wsRef h) as [j|] eqn:Hj; [|done].
  assert (Hs : sockets (effect_cleanup h)
               = alter WebSocket_close j (sockets h)).
  { unfold effect_cleanup, clearTimeout.
    destruct (reconnectTimeoutRef h); simpl; by rewrite Hj. }
  rewrite Hs, list_lookup_alter_eq.
  destruct (sockets h !! j) as [ws|]; [|done]. simpl.
  rewrite decide_False; [done|].
  unfold WebSocket_close.
  destruct (ws_readyState ws) eqn:E; simpl; congruence.
Qed.

(** X11: without a run of the effect for a non-empty [userId] the hook
    does nothing at all: whatever else happens, the store stays the
    initial one (no socket, no timer, nothing sent or invalidated). *)
Theorem no_identity_no_activity (trace : list Event) :
  Forall (fun e => forall userId, e = EffectRun userId -> userId = EmptyString)
    trace ->
  run initial trace = initial.
Proof.
  induction 1 as [|e trace He _ IH]; [done|].
  rewrite run_cons.
  assert (Hstep : step initial e = initial); [|by rewrite Hstep].
  destruct e as [userId| |i|i data|i|i|t|message now]; try done.
  cbn [step]. unfold effect_run. by rewrite (He userId eq_refl).
Qed.

(** X12: an open gives the whole retry budget back, whatever the history:
    in a run without a further open that follows the opening of a
    connecting socket, the delays armed are again the first entries of the
    schedule, one for each close delivered. *)
Theorem open_restores_retry_budget
    (h : Hook) (i : nat) (ws : Socket) (trace : list Event) :
  sockets h !! i = Some ws ->
  ws_readyState ws = CONNECTING ->
  no_open trace ->
  delays (run (step h (SocketOpen i)) trace)
  = (delays h ++
     take (closes_delivered (step h (SocketOpen i)) trace)
       backoff_schedule)%list.
Proof.
  intros Hi Hconnecting Hno.
  assert (Hzero : reconnectAttempts (step h (SocketOpen i)) = 0).
  { cbn [step]. rewrite Hi. by rewrite decide_True. }
  destruct (policy_run trace (step h (SocketOpen i))) as [Ec Ed];
    [rewrite Hzero; unfold maxReconnectAttempts; lia | done |].
  rewrite Ed, step_open_delays. f_equal.
  rewrite Ec, Hzero. unfold maxReconnectAttempts.
  rewrite Z.add_0_l, Z.sub_0_r. apply backoff_schedule_formula.
Qed.

End HookInvariants.

(** ** The upload notification *)

Section UploadNotification.
Context {platform : Platform}.
Import UseFiles.


(** X14: while the hook of the mutation holds no open socket, a successful
    upload still invalidates the file list of the project locally, and
    announces nothing. *)
Theorem upload_without_connection
    (data files : Value) (variables : Variables) (now : string) (h : Hook) :
  get_property data "files" = Ok files ->
  (forall ws, current_socket h = Some ws -> ws_readyState ws <> OPEN) ->
  onSuccess data variables now h
  = (Ok tt,
     set_invalidated
       (invalidated h ++ [[JStr "project-files"; JStr (projectId variables)]])
       h).
Proof.
  intros Hfiles Hclosed.
  unfold onSuccess, invalidateQueries, effect, lift, mbind, M_bind,
    sendMessage.
  rewrite Hfiles. simpl. unfold current_socket in Hclosed.
  destruct (wsRef h) as [i|]; [|done]. simpl in Hclosed.
  destruct (sockets h !! i) as [ws|]; [|done].
  rewrite decide_False; [done|]. by apply Hclosed.
Qed.

End UploadNotification.

(** ** More of the milestone board *)

Module MilestoneBoardMore.
Import MilestoneBoard MilestoneCard MilestoneBoardFacts.

(** X15: the three counts of the progress summary add up to the number of
    milestones, and every column lists its milestones in the order of the
    input list. *)
Theorem summary_counts_add_up (milestones : list Milestone) :
  let columns := groupedMilestones milestones in
  (length (pending columns) + length (in_progress columns)
   + length (completed columns) = length milestones)%nat /\
  (forall s : Status, column s columns `sublist_of` milestones).
Proof.
  intros columns. split.
  - rewrite <- (Permutation_length (columns_permutation milestones)).
    rewrite !length_app. simpl. lia.
  - intros s. destruct s; simpl; apply sublist_filter.
Qed.


End MilestoneBoardMore.

(** ** Strings *)

Lemma append_cons (c : ascii) (s t : string) :
  String c s +:+ t = String c (s +:+ t).
Proof. reflexivity. Qed.

Lemma prefix_cons (a b : ascii) (needle s : string) :
  String.prefix (String a needle) (String b s)
  = if ascii_dec a b then String.prefix needle s else false.
Proof. reflexivity. Qed.

Lemma prefix_spec (needle s : string) :
  String.prefix needle s = true <-> exists post, s = needle +:+ post.
Proof.
  revert s. induction needle as [|a needle IH]; intros s.
  - split; [by exists s|]. intros _. by destruct s.
  - destruct s as [|b s].
    + split; [discriminate|]. by intros [post [=]].
    + rewrite prefix_cons. destruct (ascii_dec a b) as [->|Hne].
      * rewrite IH. split; intros [post Hpost]; exists post.
        -- by rewrite append_cons, Hpost.
        -- rewrite append_cons in Hpost. congruence.
      * split; [discriminate|]. intros [post Hpost].
        rewrite append_cons in Hpost. congruence.
Qed.

(** [includes] finds the needle wherever it occurs in the string. *)
Lemma includes_spec (s needle : string) :
  includes s needle = true <->
  exists pre post, s = pre +:+ needle +:+ post.
Proof.
  induction s as [|c s IH].
  - cbn [includes]. destruct (String.prefix needle EmptyString) eqn:Hp.
    + apply prefix_spec in Hp as [post Hpost].
      split; [|done]. intros _. by exists EmptyString, post.
    + split; [done|]. intros (pre & post & Heq).
      destruct pre; [|done].
      assert (String.prefix needle EmptyString = true); [|congruence].
      apply prefix_spec. by exists post.
  - cbn [includes]. destruct (String.prefix needle (String c s)) eqn:Hp.
    + apply prefix_spec in Hp as [post Hpost].
      split; [|done]. intros _. by exists EmptyString, post.
    + rewrite IH. split.
      * intros (pre & post & ->). by exists (String c pre), post.
      * intros (pre & post & Heq). destruct pre as [|c' pre].
        -- assert (String.prefix needle (String c s) = true); [|congruence].
           apply prefix_spec. by exists post.
        -- rewrite append_cons in Heq. injection Heq as _ ->.
           by exists pre, post.
Qed.

(** ** The file manager *)

Module FileManagerFacts.
Import FileManager.

Lemma toggle_elem_of (fileId x : string) (prev : list string) :
  x ∈ toggleFileSelection fileId prev <->
  (x = fileId /\ fileId ∉ prev) \/ (x <> fileId /\ x ∈ prev).
Proof.
  unfold toggleFileSelection. case_bool_decide as Hin.
  - rewrite list_elem_of_filter. split.
    + intros [Hne Hx]. by right.
    + intros [[_ Hnot] | [Hne Hx]]; [done|by split].
  - rewrite elem_of_app, list_elem_of_singleton. split.
    + intros [Hx | ->]; [|by left]. right. split; [|done].
      intros ->. done.
    + intros [[-> _] | [_ Hx]]; [by right|by left].
Qed.

Lemma toggle_NoDup (fileId : string) (prev : list string) :
  NoDup prev -> NoDup (toggleFileSelection fileId prev).
Proof.
  intros Hnd. unfold toggleFileSelection. case_bool_decide as Hin.
  - by apply NoDup_filter.
  - apply NoDup_app. split; [done|]. split; [|apply NoDup_singleton].
    intros x Hx ->%list_elem_of_singleton. done.
Qed.

Lemma selection_after_snoc (clicks : list string) (c : string) :
  selection_after (clicks ++ [c])
  = toggleFileSelection c (selection_after clicks).
Proof. unfold selection_after. by rewrite fold_left_app. Qed.

Lemma selection_odd (clicks : list string) (fileId : string) :
  fileId ∈ selection_after clicks <->
  Nat.odd (length (filter (fun c => c = fileId) clicks)) = true.
Proof.
  induction clicks as [|c clicks IH] using rev_ind.
  - simpl. split; [by intros ?%elem_of_nil|done].
  - rewrite selection_after_snoc, toggle_elem_of, filter_app, length_app.
    rewrite filter_cons, filter_nil.
    destruct (decide (c = fileId)) as [->|Hne]; simpl.
    + rewrite Nat.add_1_r, Nat.odd_succ, <- Nat.negb_odd.
      destruct (Nat.odd _); simpl; split; try done.
      * intros [[_ Hnot] | [Hne _]]; [|done]. destruct Hnot. by apply IH.
      * intros _. left. split; [done|]. intros Hin. by apply IH in Hin.
    + rewrite Nat.add_0_r, <- IH. split.
      * intros [[-> _] | [_ Hin]]; done.
      * intros Hin. right. split; [|done]. by intros ->.
Qed.

(** X19: a click on a file card flips the selection of that file and of no
    other; the selection never lists a file twice, and a file is selected
    exactly when it has been clicked an odd number of times. *)
Theorem selection_follows_the_clicks (clicks : list string) :
  NoDup (selection_after clicks) /\
  (forall fileId : string,
      fileId ∈ selection_after clicks <->
      Nat.odd (length (filter (fun c => c = fileId) clicks)) = true) /\
  (forall fileId x : string,
      x <> fileId ->
      x ∈ toggleFileSelection fileId (selection_after clicks) <->
      x ∈ selection_after clicks).
Proof.
  split; [|split].
  - induction clicks as [|c clicks IH] using rev_ind; [constructor|].
    rewrite selection_after_snoc. by apply toggle_NoDup.
  - intros fileId. apply selection_odd.
  - intros fileId x Hne. rewrite toggle_elem_of. split.
    + intros [[Heq _] | [_ Hin]]; done.
    + intros Hin. by right.
Qed.

Section Filter.
Variable toLowerCase : string -> string.

Lemma includes_empty (s : string) : includes s EmptyString = true.
Proof. by destruct s. Qed.

(** X20: the files shown are files of the project, in their order; a file
    is shown exactly when it is of the selected category (any category for
    ['all']) and its name contains the search text, letter case aside;
    with ['all'] and an empty search every file is shown, and choosing a
    category only narrows what ['all'] shows. *)
Theorem filteredFiles_narrows
    (files : list FileItem) (selectedCategory searchQuery : string) :
  filteredFiles toLowerCase files selectedCategory searchQuery
    `sublist_of` files /\
  (forall f : FileItem,
      f ∈ filteredFiles toLowerCase files selectedCategory searchQuery <->
      f ∈ files /\
      (selectedCategory = "all" \/
       category_key (category f) = selectedCategory) /\
      exists pre post,
        toLowerCase (name f) = pre +:+ toLowerCase searchQuery +:+ post) /\
  filteredFiles toLowerCase files selectedCategory searchQuery
    `sublist_of` filteredFiles toLowerCase files "all" searchQuery /\
  (toLowerCase EmptyString = EmptyString ->
   filteredFiles toLowerCase files "all" EmptyString = files).
Proof.
  unfold filteredFiles. split; [apply sublist_filter|]. split; [|split].
  - intros f. rewrite list_elem_of_filter.
    unfold matchesCategory, matchesSearch.
    rewrite andb_true_iff, orb_true_iff, !String.eqb_eq, includes_spec.
    tauto.
  - apply filter_sublist_mono. intros f.
    rewrite !andb_true_iff. by intros [_ Hsearch].
  - intros Hlower. induction files as [|f files IH]; [done|].
    rewrite filter_cons_True, IH; [done|].
    unfold matchesCategory, matchesSearch. simpl.
    by rewrite Hlower, includes_empty.
Qed.

End Filter.

(** X21: the numbers on the four category buttons add up to the number on
    the [All Files] button, the number of files. *)
Theorem category_counts_add_up (files : list FileItem) :
  (category_count files "requirement" + category_count files "deliverable"
   + category_count files "reference" + category_count files "other"
   = length files)%nat.
Proof.
  unfold category_count.
  induction files as [|f files IH]; [done|].
  rewrite !filter_cons.
  destruct (category f); simpl; repeat case_decide; try discriminate;
    simpl; lia.
Qed.

End FileManagerFacts.

(** ** The upload zone *)

Module FileUploadZoneFacts.
Import FileUploadZone.

Section Zone.
Variable toLowerCase : string -> string.
Variable maxFileSize : Z.
Variable allowedTypes : list string.

Local Abbreviation validateFile :=
  (validateFile toLowerCase maxFileSize allowedTypes).
Local Abbreviation validate_each :=
  (validate_each toLowerCase maxFileSize allowedTypes).
Local Abbreviation handleFiles_begin :=
  (handleFiles_begin toLowerCase maxFileSize allowedTypes).

(** X22: the size is checked first and the limit is inclusive: a file of
    more than [maxFileSize * 1024 * 1024] bytes is refused for its size
    whatever its type, a file of exactly that size is not; and when the
    allowed types are empty or contain ['*'] the size is all that is
    checked. *)
Theorem validateFile_size_limit (f : File) :
  (maxFileSize * 1048576 < size f ->
   validateFile f = Some (size_exceeds maxFileSize)) /\
  (size f <= maxFileSize * 1048576 ->
   validateFile f <> Some (size_exceeds maxFileSize)) /\
  (allowedTypes = [] \/ "*" ∈ allowedTypes ->
   (validateFile f = None <-> size f <= maxFileSize * 1048576)).
Proof.
  unfold FileUploadZone.validateFile.
  replace (maxFileSize * 1024 * 1024) with (maxFileSize * 1048576) by lia.
  destruct (Z.ltb_spec (maxFileSize * 1048576) (size f)) as [Hlt|Hle].
  - split; [done|]. split; [lia|]. intros _. split; [done|lia].
  - split; [lia|]. split.
    + intros _. by repeat case_match.
    + intros [-> | Hstar]; [done|].
      rewrite (bool_decide_eq_true_2 _ Hstar), andb_false_r. done.
Qed.

Lemma validate_each_from (files valid : list File)
    (invalid : list (File * ValidationError)) :
  fold_left
    (fun (arrays : list File * list (File * ValidationError)) f =>
       match validateFile f with
       | Some e => (arrays.1, (arrays.2 ++ [(f, e)])%list)
       | None => ((arrays.1 ++ [f])%list, arrays.2)
       end) files (valid, invalid)
  = ((valid ++ filter (fun f => validateFile f = None) files)%list,
     (invalid ++
      omap (fun f => pair f <$> validateFile f) files)%list).
Proof.
  revert valid invalid.
  induction files as [|f files IH]; intros valid invalid; simpl.
  - by rewrite !app_nil_r.
  - rewrite filter_cons. case_decide as Hf.
    + rewrite Hf. simpl. by rewrite IH, <- app_assoc.
    + destruct (validateFile f) as [e|]; [|done].
      simpl. by rewrite IH, <- app_assoc.
Qed.


End Zone.

Lemma filter_index_above {A : Type} (target k : nat) (l : list A) :
  (target < k)%nat ->
  filter_index (fun i => negb (i =? target)%nat) k l = l.
Proof.
  revert k. induction l as [|x l IH]; intros k Hk; [done|].
  cbn [filter_index].
  destruct (Nat.eqb_spec k target) as [Heq|_]; [lia|].
  cbn [negb]. f_equal. apply IH. lia.
Qed.

Lemma filter_index_delete {A : Type} (index offset : nat) (l : list A) :
  filter_index (fun i => negb (i =? index + offset)%nat) offset l
  = delete index l.
Proof.
  revert index offset. induction l as [|x l IH]; intros index offset.
  - by destruct index.
  - cbn [filter_index]. destruct index as [|index].
    + rewrite Nat.add_0_l, Nat.eqb_refl. cbn [negb].
      apply filter_index_above. lia.
    + destruct (Nat.eqb_spec offset (S index + offset)) as [Heq|_]; [lia|].
      cbn [negb]. simpl delete. f_equal.
      replace (S index + offset)%nat with (index + S offset)%nat by lia.
      apply IH.
Qed.

(** X24: removing an upload by its index drops exactly the entry at that
    index and keeps the others in their order; an index beyond the end
    changes nothing. *)
Theorem removeUploadingFile_drops_one {A : Type} (index : nat) (prev : list A) :
  removeUploadingFile index prev = (take index prev ++ drop (S index) prev)%list /\
  (forall j : nat,
      removeUploadingFile index prev !! j
      = if decide (j < index)%nat then prev !! j else prev !! S j) /\
  ((index < length prev)%nat ->
   S (length (removeUploadingFile index prev)) = length prev) /\
  ((length prev <= index)%nat -> removeUploadingFile index prev = prev).
Proof.
  assert (Hdelete : removeUploadingFile index prev = delete index prev).
  { unfold removeUploadingFile.
    rewrite <- (filter_index_delete index 0 prev).
    by rewrite Nat.add_0_r. }
  rewrite Hdelete. split; [by rewrite delete_take_drop|]. split; [|split].
  - intros j. case_decide.
    + by apply list_lookup_delete_lt.
    + apply list_lookup_delete_ge. lia.
  - intros Hlt. rewrite length_delete; [|by apply lookup_lt_is_Some].
    lia.
  - intros Hge. rewrite delete_take_drop.
    rewrite take_ge, drop_ge by lia. by rewrite app_nil_r.
Qed.

End FileUploadZoneFacts.

(** ** Runs of the additional properties *)

Section MoreRuns.
Local Existing Instance unconfigured.

Lemma refs_name_what_exists_witness :
  wsRef (run initial five_failures) = Some 5%nat /\
  is_Some (sockets (run initial five_failures) !! 5%nat).
Proof.
  split; [reflexivity|].
  apply (proj1 (refs_name_what_exists five_failures)). reflexivity.
Defined.

Lemma message_without_payload_witness :
  onmessage (Browser.stringify (JObj [("type", JStr "project_update")]))
    initial
  = console_write (error_parse TypeError)
      (set_invalidated [[JStr "projects"]]
         (setLastMessage (JObj [("type", JStr "project_update")]) initial)).
Proof.
  apply (message_without_payload project_update _
           (JObj [("type", JStr "project_update")]) JUndefined initial).
  - reflexivity.
  - reflexivity.
  - reflexivity.
  - by right.
  - discriminate.
Defined.

Lemma invalidations_come_from_messages_witness :
  invalidated (run initial five_failures) = [] /\
  lastMessage (run initial five_failures) = JNull.
Proof.
  apply (proj2 (invalidations_come_from_messages initial five_failures)).
  repeat constructor.
Defined.

Lemma timer_delays_within_bounds_witness :
  let last := {| t_delay := 30000; t_userId := "u1"; t_pending := false |} in
  last ∈ timers (run initial five_failures) /\
  t_delay last ∈ backoff_schedule /\ 2000 <= t_delay last <= 30000.
Proof.
  intros last.
  assert (Hin : last ∈ timers (run initial five_failures)).
  { vm_compute. do 4 apply list_elem_of_further. apply list_elem_of_here. }
  split; [exact Hin|].
  exact (timer_delays_within_bounds five_failures last Hin).
Defined.

Lemma sockets_connect_to_the_endpoint_witness :
  ws_url (WebSocket_new "wss://api.lancerscape.in/ws?userId=u1" "u1")
  = "wss://api.lancerscape.in/ws?userId=u1".
Proof.
  assert (Hin : WebSocket_new "wss://api.lancerscape.in/ws?userId=u1" "u1"
                ∈ sockets (run initial [EffectRun "u1"])).
  { vm_compute. apply list_elem_of_here. }
  exact (sockets_connect_to_the_endpoint [EffectRun "u1"] _ Hin).
Defined.

Lemma sockets_only_move_forward_witness :
  exists ws',
    sockets (run (run initial until_teardown) after_teardown) !! 0%nat
    = Some ws' /\
    ws_url ws' = "wss://api.lancerscape.in/ws?userId=u1" /\
    ws_userId ws' = "u1".
Proof.
  assert (Hthere :
    sockets (run initial until_teardown) !! 0%nat
    = Some (set_readyState CLOSING
              (WebSocket_new "wss://api.lancerscape.in/ws?userId=u1" "u1")))
    by reflexivity.
  destruct (sockets_only_move_forward (run initial until_teardown)
              after_teardown 0 _ Hthere)
    as (ws' & Hlookup & (Hurl & Hid & _) & _).
  exists ws'. split; [exact Hlookup|]. split; [exact Hurl | exact Hid].
Defined.

Lemma no_identity_no_activity_witness :
  run initial
    [EffectRun EmptyString; SocketOpen 0; TimerFired 0;
     Send {| m_type := notification; m_data := JNull |} "2024";
     EffectCleanup]
  = initial.
Proof.
  apply no_identity_no_activity.
  repeat constructor; intros userId [=]; congruence.
Defined.

(** One failure, a reconnect that opens, then two more failures: the
    delays start again at 2000. *)
Lemma open_restores_retry_budget_witness :
  delays
    (run (step (run initial [EffectRun "u1"; SocketClose 0; TimerFired 0])
            (SocketOpen 1))
       [SocketClose 1; TimerFired 1; SocketClose 2])
  = [2000; 2000; 4000].
Proof.
  assert (Hthere :
    sockets (run initial [EffectRun "u1"; SocketClose 0; TimerFired 0])
      !! 1%nat
    = Some (WebSocket_new "wss://api.lancerscape.in/ws?userId=u1" "u1"))
    by reflexivity.
  assert (Hno : no_open [SocketClose 1; TimerFired 1; SocketClose 2])
    by repeat constructor.
  exact (open_restores_retry_budget _ 1 _ _ Hthere eq_refl Hno).
Defined.


Lemma upload_without_connection_witness :
  UseFiles.onSuccess (JObj [("files", JArr [])])
    {| UseFiles.projectId := "p1"; UseFiles.category := "other" |}
    "2024-01-01T00:00:00.000Z" initial
  = (Ok tt, set_invalidated [[JStr "project-files"; JStr "p1"]] initial).
Proof.
  apply (upload_without_connection _ (JArr [])).
  - reflexivity.
  - intros ws. discriminate.
Defined.

End MoreRuns.

Module MoreWitnesses.
Import MilestoneBoard.

Lemma selection_follows_the_clicks_witness :
  "b" ∈ FileManager.toggleFileSelection "a"
          (FileManager.selection_after ["a"; "b"; "a"; "c"]) <->
  "b" ∈ FileManager.selection_after ["a"; "b"; "a"; "c"].
Proof.
  apply (proj2 (proj2 (FileManagerFacts.selection_follows_the_clicks
                         ["a"; "b"; "a"; "c"])) "a" "b").
  discriminate.
Defined.

Lemma filteredFiles_narrows_witness :
  let report :=
    {| FileManager.id := "f1"; FileManager.name := "Report.PDF";
       FileManager.type := FileManager.file;
       FileManager.mimeType := Some "application/pdf";
       FileManager.size := 1024; FileManager.url := None;
       FileManager.uploadedAt := "2024-01-01T00:00:00.000Z";
       FileManager.uploadedBy :=
         {| FileManager.uploader_id := "u1";
            FileManager.uploader_name := "Asha";
            FileManager.role := FileManager.client |};
       FileManager.category := FileManager.deliverable;
       FileManager.milestoneId := None |} in
  FileManager.filteredFiles ascii_toLowerCase [report] "all" EmptyString
  = [report].
Proof.
  intros report.
  apply (proj2 (proj2 (proj2 (FileManagerFacts.filteredFiles_narrows
                                ascii_toLowerCase [report] "all"
                                EmptyString)))).
  reflexivity.
Defined.

Lemma validateFile_size_limit_witness :
  let at_limit :=
    {| FileUploadZone.name := "video.mp4"; FileUploadZone.type := "video/mp4";
       FileUploadZone.size := 52428800 |} in
  FileUploadZone.validateFile ascii_toLowerCase 50 ["*"] at_limit = None.
Proof.
  intros at_limit.
  apply (proj2 (proj2 (FileUploadZoneFacts.validateFile_size_limit
                         ascii_toLowerCase 50 ["*"] at_limit))).
  - right. apply list_elem_of_here.
  - simpl. lia.
Defined.

Lemma removeUploadingFile_drops_one_witness :
  FileUploadZone.removeUploadingFile 5 ["a.png"; "b.png"]
  = ["a.png"; "b.png"].
Proof.
  apply (proj2 (proj2 (proj2 (FileUploadZoneFacts.removeUploadingFile_drops_one
                                5 ["a.png"; "b.png"])))).
  simpl. lia.
Defined.

End MoreWitnesses.
